(** * The sync task tree of [sync/sync_base.py] ([SyncBase])

    A shallow embedding of the orchestration core: the task tree, its
    artifact store, the trigger / fan-out protocol and the status
    recording contract, followed by the properties proved about them.

    Python objects that the code mutates through more than one name
    (artifact dictionaries and the lists stored in them) live in an
    explicit heap, so that copies and aliases are distinguished. *)

From stdpp Require Import gmap strings list fin_maps.
From Stdlib Require Import ZArith.

Local Open Scope Z_scope.
Local Open Scope string_scope.
Local Open Scope list_scope.

(** ** Values and the object heap *)

Definition loc := nat.

(** Python values as the engine sees them: immediates, and references to
    mutable containers, which are lists and dictionaries.  Of these only
    a dictionary has the methods of a mapping ([get], [copy], item
    assignment). *)
Inductive val :=
| VNone
| VBool (b : bool)
| VInt (n : Z)
| VStr (s : string)
| VRef (l : loc).

Inductive obj :=
| OList (xs : list val)
| ODict (d : gmap string val).

#[global] Instance val_eq_dec : EqDecision val.
Proof. solve_decision. Defined.

Definition val_enc (v : val) : unit + bool + Z + string + nat :=
  match v with
  | VNone => inl (inl (inl (inl tt)))
  | VBool b => inl (inl (inl (inr b)))
  | VInt n => inl (inl (inr n))
  | VStr s => inl (inr s)
  | VRef l => inr l
  end.

Definition val_dec (x : unit + bool + Z + string + nat) : val :=
  match x with
  | inl (inl (inl (inl _))) => VNone
  | inl (inl (inl (inr b))) => VBool b
  | inl (inl (inr n)) => VInt n
  | inl (inr s) => VStr s
  | inr l => VRef l
  end.

#[global] Instance val_countable : Countable val.
Proof. refine (inj_countable' val_enc val_dec _); by intros []. Defined.

(** Exceptions.  All of them derive from [Exception], and are caught by
    [except Exception], but [SystemExit] and [KeyboardInterrupt].
    [NonAsciiError] is an [Exception] whose message is a unicode string
    that [str()] cannot encode. *)
Inductive exn :=
| AttributeError
| TypeError
| ValueError
| ReferenceError
| IndexError
| UnicodeEncodeError
| UserError (msg : string)
| NonAsciiError (msg : string)
| SystemExit
| KeyboardInterrupt.

#[global] Instance exn_eq_dec : EqDecision exn.
Proof. solve_decision. Defined.

(** [isinstance(e, Exception)]. *)
Definition derives_from_Exception (e : exn) : bool :=
  match e with
  | SystemExit | KeyboardInterrupt => false
  | _ => true
  end.

(** What formatting [e] with [%s] raises, if it does. *)
Definition format_exn (e : exn) : option exn :=
  match e with
  | NonAsciiError _ => Some UnicodeEncodeError
  | _ => None
  end.

(** ** The Manager collaborator and the log *)

(** The descriptor of the currently executing operation; only its
    keyword parameters are read. *)
Record SyncTask := mkSyncTask { task_kwargs : list (string * val) }.

(** Modelled from the spec: the Status Record class is not part of
    [sync_base.py].  One record per (task key, section) pair, holding the
    key and the outcome of the last run. *)
Record SyncStatus := mkSyncStatus {
  status_key : string;
  previous_success : option bool;
  previous_timestamp : option Z;
  previous_elapsed : option Z
}.

#[global] Instance SyncStatus_eq_dec : EqDecision SyncStatus.
Proof. solve_decision. Defined.

(** What leaves the core: calls into the Manager and log lines, in the
    order they happen. *)
Inductive event :=
| EvGetCurrent
| EvGetStatus (key : string) (section : val)
| EvStatusUpdate (key : string) (section : val) (success : bool) (start finish : Z)
| EvLogInfo (key : string) (success : option bool) (timestamp elapsed : option Z)
| EvLogWarn (e : exn).

#[global] Instance event_eq_dec : EqDecision event.
Proof. solve_decision. Defined.

(** ** Task nodes and the world *)

(** A node is identified by the child keys leading to it from the root. *)
Definition path := list string.

(** The per-run mutable attributes of a node instance. *)
Record node_state := mkNodeState {
  start_time : option Z;
  artifacts : loc
}.

Record world := mkWorld {
  clock : nat -> Z;              (* what the n-th [datetime.utcnow()] returns *)
  ticks : nat;                   (* clock readings taken so far *)
  sched : list (list nat);       (* completion orders of the coming threaded fan-outs *)
  heap : list obj;
  nodes : gmap path node_state;
  current : option SyncTask;     (* [manager.get_current()], [None] when idle *)
  statuses : gmap (string * val) SyncStatus;
  trace : list event
}.

Definition set_heap (h : list obj) (w : world) : world :=
  mkWorld (clock w) (ticks w) (sched w) h (nodes w) (current w) (statuses w) (trace w).
Definition set_nodes (n : gmap path node_state) (w : world) : world :=
  mkWorld (clock w) (ticks w) (sched w) (heap w) n (current w) (statuses w) (trace w).
Definition set_ticks (t : nat) (w : world) : world :=
  mkWorld (clock w) t (sched w) (heap w) (nodes w) (current w) (statuses w) (trace w).
Definition set_sched (s : list (list nat)) (w : world) : world :=
  mkWorld (clock w) (ticks w) s (heap w) (nodes w) (current w) (statuses w) (trace w).
Definition set_statuses (s : gmap (string * val) SyncStatus) (w : world) : world :=
  mkWorld (clock w) (ticks w) (sched w) (heap w) (nodes w) (current w) s (trace w).
Definition emit (e : event) (w : world) : world :=
  mkWorld (clock w) (ticks w) (sched w) (heap w) (nodes w) (current w) (statuses w)
          (trace w ++ [e]).

(** ** Computations: state plus exceptions *)

Inductive res (A : Type) :=
| Ok (a : A)
| Raise (e : exn)
| Hang.                          (* blocked for ever on a semaphore *)
Arguments Ok {A} a.
Arguments Raise {A} e.
Arguments Hang {A}.

Definition M (A : Type) : Type := world -> res A * world.

Definition ret {A} (a : A) : M A := fun w => (Ok a, w).
Definition raise {A} (e : exn) : M A := fun w => (Raise e, w).
Definition bind {A B} (m : M A) (k : A -> M B) : M B :=
  fun w => match m w with
           | (Ok a, w') => k a w'
           | (Raise e, w') => (Raise e, w')
           | (Hang, w') => (Hang, w')
           end.

Notation "x <- m ;; k" := (bind m (fun x => k))
  (at level 100, m at next level, right associativity).
Notation "m ;;; k" := (bind m (fun _ => k))
  (at level 100, right associativity).

Definition get_world : M world := fun w => (Ok w, w).
Definition modify (f : world -> world) : M unit := fun w => (Ok tt, f w).

(** [for x in xs: f(x)]. *)
Fixpoint for_each {X} (f : X -> M unit) (xs : list X) : M unit :=
  match xs with
  | [] => ret tt
  | x :: xs' => f x ;;; for_each f xs'
  end.

(** [datetime.utcnow()]. *)
Definition utcnow : M Z :=
  fun w => (Ok (clock w (ticks w)), set_ticks (S (ticks w)) w).

(** Allocation of a new container object. *)
Definition alloc (o : obj) : M loc :=
  fun w => (Ok (length (heap w)), set_heap (heap w ++ [o]) w).

(** Python truthiness. *)
Definition truthy (h : list obj) (v : val) : bool :=
  match v with
  | VNone => false
  | VBool b => b
  | VInt n => negb (Z.eqb n 0)
  | VStr s => negb (String.eqb s "")
  | VRef l => match h !! l with
              | Some (OList xs) => negb (Nat.eqb (length xs) 0)
              | Some (ODict d) => negb (bool_decide (d = ∅))
              | None => true
              end
  end.

(** The dictionary behind a reference; anything else has none of the
    dictionary methods. *)
Definition as_dict (v : val) : M (gmap string val) :=
  fun w => match v with
           | VRef l => match heap w !! l with
                       | Some (ODict d) => (Ok d, w)
                       | _ => (Raise AttributeError, w)
                       end
           | _ => (Raise AttributeError, w)
           end.

(** [self.<attr>] on the instance at path [p]. *)
Definition self_state (p : path) : M node_state :=
  fun w => match nodes w !! p with
           | Some ns => (Ok ns, w)
           | None => (Raise AttributeError, w)
           end.

(** ** The artifact store *)

(** [SyncBase.retrieve]. *)
Definition retrieve (p : path) (key : string) (single : bool) : M val :=
  ns <- self_state p ;;
  d <- as_dict (VRef (artifacts ns)) ;;
  if single then ret (default VNone (d !! key))
  else match d !! key with
       | Some v => ret v
       | None => l <- alloc (OList []) ;; ret (VRef l)
       end.

(** [xs.append(data)] on the object behind [v]. *)
Definition list_append (v : val) (data : val) : M unit :=
  fun w => match v with
           | VRef l => match heap w !! l with
                       | Some (OList xs) =>
                           (Ok tt, set_heap (<[l := OList (xs ++ [data])]> (heap w)) w)
                       | _ => (Raise AttributeError, w)
                       end
           | _ => (Raise AttributeError, w)
           end.

(** [d[key] = v] on the dictionary object at [a]. *)
Definition dict_setitem (a : loc) (key : string) (v : val) : M unit :=
  d <- as_dict (VRef a) ;;
  modify (fun w => set_heap (<[a := ODict (<[key := v]> d)]> (heap w)) w).

(** [SyncBase.store]. *)
Definition store (p : path) (key : string) (data : val) (single : bool) : M unit :=
  ns <- self_state p ;;
  if single then dict_setitem (artifacts ns) key data
  else
    d <- as_dict (VRef (artifacts ns)) ;;
    (match d !! key with
     | Some _ => ret tt
     | None => l <- alloc (OList []) ;; dict_setitem (artifacts ns) key (VRef l)
     end) ;;;
    d' <- as_dict (VRef (artifacts ns)) ;;
    match d' !! key with
    | Some v => list_append v data
    | None => raise (UserError "KeyError")
    end.

(** ** The task tree *)

Definition kwargs := list (string * val).

Definition kw_get (name : string) (kw : kwargs) : val :=
  match find (fun e => String.eqb (fst e) name) kw with
  | Some e => snd e
  | None => VNone
  end.

(** [kwargs.pop(name, False)]: the value, and the keywords left. *)
Definition kw_pop (name : string) (kw : kwargs) : val * kwargs :=
  (match find (fun e => String.eqb (fst e) name) kw with
   | Some e => snd e
   | None => VBool false
   end,
   filter (fun e => fst e ≠ name) kw).

(** A callable that the engine dispatches: positional and keyword
    arguments in, a result or an exception out. *)
Definition func := list val -> kwargs -> M val.

(** A task class.  [handlers] are its [run_<name>] methods, keyed by
    <name> and listed as [dir()] does; each takes the path of the
    instance it is bound to.  [children] is the declared list of child
    classes; sibling keys are distinct, and the children dictionary is
    traversed in this order. *)
#[warnings="-register-all"]
Inductive SyncBase := mkSyncBase {
  key : string;
  task : option string;
  auto_run : bool;
  threaded : bool;
  handlers : list (string * (path -> func));
  children : list SyncBase
}.

Definition child_path (p : path) (c : SyncBase) : path := p ++ [key c].

Definition set_node (p : path) (ns : node_state) : M unit :=
  modify (fun w => set_nodes (<[p := ns]> (nodes w)) w).

(** [SyncBase.__init__]: the children are instantiated before the
    node's own attributes are set. *)
Fixpoint init (cls : SyncBase) (p : path) : M unit :=
  for_each (fun c => init c (child_path p c)) (children cls) ;;;
  a <- alloc (ODict ∅) ;;
  set_node p (mkNodeState None a).

(** [artifacts.copy() if artifacts else {}]. *)
Definition copy_or_empty (A : val) : M loc :=
  w <- get_world ;;
  if truthy (heap w) A then d <- as_dict A ;; alloc (ODict d)
  else alloc (ODict ∅).

Definition set_start_time (p : path) (t : Z) : M unit :=
  modify (fun w =>
    set_nodes (alter (fun ns => mkNodeState (Some t) (artifacts ns)) p (nodes w)) w).

(** [SyncBase.reset]. *)
Fixpoint reset (cls : SyncBase) (p : path) (A : val) : M unit :=
  t <- utcnow ;;
  set_start_time p t ;;;
  a <- copy_or_empty A ;;
  set_node p (mkNodeState (Some t) a) ;;;
  for_each (fun c => reset c (child_path p c) A) (children cls).

(** [SyncBase.child]. *)
Definition child (cls : SyncBase) (name : string) : option SyncBase :=
  find (fun c => String.eqb (key c) name) (children cls).

(** ** Status recording *)

(** Modelled from the spec: [manager.get_current()], whose first
    component is the descriptor of the operation in progress, if any. *)
Definition manager_get_current : M (option SyncTask) :=
  modify (emit EvGetCurrent) ;;;
  w <- get_world ;;
  ret (current w).

(** Modelled from the spec: [manager.get_status(task_key, section)]
    fetches the record of the pair or creates it; the record is shared
    with the Manager, so it is referred to by its pair. *)
Definition manager_get_status (k : string) (section : val) : M (string * val) :=
  modify (emit (EvGetStatus k section)) ;;;
  w <- get_world ;;
  match statuses w !! (k, section) with
  | Some _ => ret (k, section)
  | None =>
      modify (set_statuses (<[(k, section) := mkSyncStatus k None None None]> (statuses w))) ;;;
      ret (k, section)
  end.

(** The fields of a record the core holds a reference to. *)
Definition status_fields (r : string * val) : M SyncStatus :=
  fun w => match statuses w !! r with
           | Some st => (Ok st, w)
           | None => (Raise AttributeError, w)
           end.

(** Modelled from the spec: [status.update(success, start_time,
    end_time)], after which the record reflects the new success flag,
    timestamp and elapsed duration. *)
Definition status_update (r : string * val) (success : bool)
    (start : option Z) (finish : Z) : M unit :=
  st <- status_fields r ;;
  match start with
  | None => raise TypeError
  | Some s =>
      modify (emit (EvStatusUpdate (fst r) (snd r) success s finish)) ;;;
      modify (fun w => set_statuses
        (<[r := mkSyncStatus (status_key st) (Some success) (Some s) (Some (finish - s))]>
           (statuses w)) w)
  end.

(** [self.task or self.key]. *)
Definition task_or_key (cls : SyncBase) : string :=
  match task cls with
  | Some t => if String.eqb t "" then key cls else t
  | None => key cls
  end.

(** [SyncBase.get_status]; [None] stands for Python's [None]. *)
Definition get_status (cls : SyncBase) (section : val) : M (option (string * val)) :=
  match section with
  | VNone =>
      t <- manager_get_current ;;
      match t with
      | None => ret None
      | Some tk =>
          r <- manager_get_status (task_or_key cls) (kw_get "section" (task_kwargs tk)) ;;
          ret (Some r)
      end
  | _ =>
      r <- manager_get_status (task_or_key cls) section ;;
      ret (Some r)
  end.

(** [SyncBase.update_status]. *)
Definition update_status (cls : SyncBase) (p : path) (success : bool)
    (end_time start_time' : option Z) (section : val) : M unit :=
  finish <- match end_time with
            | None => utcnow
            | Some e => ret e
            end ;;
  status <- get_status cls section ;;
  match status with
  | None => raise AttributeError
  | Some r =>
      start <- match start_time' with
               | Some s => ret (Some s)
               | None => ns <- self_state p ;; ret (start_time ns)
               end ;;
      status_update r success start finish ;;;
      st <- status_fields r ;;
      modify (emit (EvLogInfo (status_key st) (previous_success st)
                              (previous_timestamp st) (previous_elapsed st)))
  end.

(** ** The execution engine *)

(** [threading.BoundedSemaphore]. *)
Record BoundedSemaphore := mkSemaphore {
  sem_value : nat;
  sem_initial : nat
}.

(** [acquire()]; [None] when the caller has to wait. *)
Definition sem_acquire (s : BoundedSemaphore) : option BoundedSemaphore :=
  match sem_value s with
  | O => None
  | S n => Some (mkSemaphore n (sem_initial s))
  end.

(** [release()], a [ValueError] past the initial value. *)
Definition sem_release (s : BoundedSemaphore) : M BoundedSemaphore :=
  if (sem_initial s <=? sem_value s)%nat then raise ValueError
  else ret (mkSemaphore (S (sem_value s)) (sem_initial s)).

(** [SyncBase.trigger_spawn], the body of one worker.  The semaphore and
    the results list are shared with the caller: they are handed back
    with every outcome, also when the worker raises.  An exception that
    [except Exception] does not catch, or one raised while the warning
    is formatted, leaves the worker before [lock.release()]. *)
Definition trigger_spawn (lock : BoundedSemaphore) (results : list val) (f : M val)
    (w : world) : res unit * (BoundedSemaphore * list val) * world :=
  match sem_acquire lock with
  | None => (Hang, (lock, results), w)
  | Some lock1 =>
      let finish (results1 : list val) (w1 : world) :=
        match sem_release lock1 w1 with
        | (Ok lock2, w2) => (Ok tt, (lock2, results1), w2)
        | (Raise e, w2) => (Raise e, (lock1, results1), w2)
        | (Hang, w2) => (Hang, (lock1, results1), w2)
        end in
      match f w with
      | (Ok v, w1) => finish (results ++ [v]) w1
      | (Raise e, w1) =>
          if derives_from_Exception e then
            match format_exn e with
            | Some e' => (Raise e', (lock1, results), w1)
            | None => finish results (emit (EvLogWarn e) w1)
            end
          else (Raise e, (lock1, results), w1)
      | (Hang, w1) => (Hang, (lock1, results), w1)
      end
  end.

(** What [trigger_run] hands back: the results list, or its first
    element unwrapped. *)
Inductive batch :=
| Results (rs : list val)
| First (v : val).

(** Modelled from the spec: [core.helpers.spawn] starts one worker per
    call and the scheduler decides which of them finish, and in which
    order, before the caller has taken its permits.  The next entry of
    [sched] lists them by position, every worker once at most; without
    an entry all of them finish in the order they were started. *)
Definition next_schedule (n : nat) : M (list nat) :=
  fun w => match sched w with
           | [] => (Ok (seq 0 n), w)
           | s :: rest =>
               (Ok (remove_dups (filter (fun i => (i < n)%nat) s)), set_sched rest w)
           end.

(** The workers of one fan-out, each run as a unit.  A worker that
    raises ends there, without the caller noticing; the next one starts
    from the semaphore and the results it left. *)
Fixpoint run_workers (funcs : list (string * func)) (args : list val) (kw : kwargs)
    (order : list nat) (lock : BoundedSemaphore) (results : list val) (w : world)
    : (BoundedSemaphore * list val) * world :=
  match order with
  | [] => ((lock, results), w)
  | i :: order' =>
      match funcs !! i with
      | Some (_, f) =>
          let '(_, st, w') := trigger_spawn lock results (f args kw) w in
          run_workers funcs args kw order' (fst st) (snd st) w'
      | None => run_workers funcs args kw order' lock results w
      end
  end.

(** [for x in range(n): lock.acquire()]. *)
Fixpoint acquire_all (n : nat) (lock : BoundedSemaphore) : M BoundedSemaphore :=
  match n with
  | O => ret lock
  | S n' =>
      match sem_acquire lock with
      | None => fun w => (Hang, w)
      | Some lock' => acquire_all n' lock'
      end
  end.

(** The comprehension that calls every function of [funcs] in turn with
    the same arguments and collects what they return. *)
Fixpoint call_each (funcs : list (string * func)) (args : list val) (kw : kwargs)
    : M (list val) :=
  match funcs with
  | [] => ret []
  | (_, f) :: funcs' =>
      r <- f args kw ;;
      rs <- call_each funcs' args kw ;;
      ret (r :: rs)
  end.

(** [SyncBase.trigger_run]. *)
Definition trigger_run (cls : SyncBase) (funcs : list (string * func)) (single : val)
    (args : list val) (kw : kwargs) : M batch :=
  match funcs with
  | [] => ret (Results [])
  | _ =>
      if threaded cls then
        order <- next_schedule (length funcs) ;;
        st <- (fun w => let '(st, w') :=
                          run_workers funcs args kw order
                            (mkSemaphore (length funcs) (length funcs)) [] w in
                        (Ok st, w')) ;;
        acquire_all (length funcs) (fst st) ;;;
        ret (Results (snd st))
      else
        results <- call_each funcs args kw ;;
        w <- get_world ;;
        if negb (truthy (heap w) single) then ret (Results results)
        else match results with
             | r :: _ => ret (First r)
             | [] => raise IndexError
             end
  end.

(** The argument [funcs] of [trigger]: absent, one name, or a list. *)
Inductive funcs_arg :=
| FuncsNone
| FuncsName (name : string)
| FuncsList (names : list string).

(** [getattr(self, 'run_' + name)] where [hasattr] holds. *)
Definition resolve (cls : SyncBase) (p : path) (name : string) : option (string * func) :=
  match find (fun h => String.eqb (fst h) name) (handlers cls) with
  | Some h => Some (name, snd h p)
  | None => None
  end.

(** [SyncBase.trigger]. *)
Definition trigger (cls : SyncBase) (p : path) (funcs : funcs_arg)
    (args : list val) (kw : kwargs) : M batch :=
  let (single, kw') := kw_pop "single" kw in
  let names := match funcs with
               | FuncsNone => map fst (handlers cls)
               | FuncsName n => [n]
               | FuncsList ns => ns
               end in
  trigger_run cls (omap (resolve cls p) names) single args kw'.

(** [[(child.key, child.run) for (_, child) in self.children.items()
    if child.auto_run]], given how a child runs. *)
Definition child_funcs (run_child : SyncBase -> path -> list val -> kwargs -> M bool)
    (p : path) (cs : list SyncBase) : list (string * func) :=
  omap (fun c =>
          if auto_run c
          then Some (key c, fun args kw => b <- run_child c (child_path p c) args kw ;;
                                           ret (VBool b))
          else None) cs.

(** [SyncBase.trigger_children], given how a child runs. *)
Definition trigger_children_with
    (run_child : SyncBase -> path -> list val -> kwargs -> M bool)
    (cls : SyncBase) (p : path) (args : list val) (kw : kwargs) : M batch :=
  let (single, kw') := kw_pop "single" kw in
  trigger_run cls (child_funcs run_child p (children cls)) single args kw'.

(** Modelled from the spec: [core.helpers.all], the logical AND over a
    sequence, vacuously true on an empty one.  Iterating a value that is
    not a sequence is a [TypeError]; a string yields its characters and a
    dictionary its keys. *)
Definition all_ (r : batch) : M bool :=
  w <- get_world ;;
  match r with
  | Results rs => ret (forallb (truthy (heap w)) rs)
  | First (VStr _) => ret true
  | First (VRef l) =>
      match heap w !! l with
      | Some (OList xs) => ret (forallb (truthy (heap w)) xs)
      | Some (ODict d) =>
          ret (forallb (fun e => negb (String.eqb (fst e) "")) (map_to_list d))
      | None => raise TypeError
      end
  | First _ => raise TypeError
  end.

(** [SyncBase.run]. *)
Fixpoint run (cls : SyncBase) (p : path) (args : list val) (kw : kwargs) : M bool :=
  reset cls p (kw_get "artifacts" kw) ;;;
  r <- trigger cls p FuncsNone args kw ;;
  ok <- all_ r ;;
  if negb ok then update_status cls p false None None VNone ;;; ret false
  else
    r' <- trigger_children_with run cls p args kw ;;
    ok' <- all_ r' ;;
    if negb ok' then update_status cls p false None None VNone ;;; ret false
    else update_status cls p true None None VNone ;;; ret true.

(** [SyncBase.trigger_children]. *)
Definition trigger_children : SyncBase -> path -> list val -> kwargs -> M batch :=
  trigger_children_with run.

(** ** Episodes *)

(** Modelled from the spec: [core.helpers.merge(a, b)] merges the
    entries of [a] into a copy of [b] and returns the merged mapping. *)
Definition merge (a b : val) : M val :=
  da <- as_dict a ;;
  db <- as_dict b ;;
  l <- alloc (ODict (da ∪ db)) ;;
  ret (VRef l).

(** [artifact or key]. *)
Definition artifact_or_key (artifact : option string) (k : string) : string :=
  match artifact with
  | Some a => if String.eqb a "" then k else a
  | None => k
  end.

(** [self.child('episode').artifacts.get(artifact or key)]. *)
Definition episode_artifact (cls : SyncBase) (p : path) (k : string)
    (artifact : option string) : M val :=
  match child cls "episode" with
  | None => raise AttributeError
  | Some c =>
      ns <- self_state (child_path p c) ;;
      d <- as_dict (VRef (artifacts ns)) ;;
      ret (default VNone (d !! artifact_or_key artifact k))
  end.

(** [SyncBase.store_episodes]. *)
Definition store_episodes (cls : SyncBase) (p : path) (k : string) (show episodes : val)
    (artifact : option string) : M unit :=
  eps <- match episodes with
         | VNone => episode_artifact cls p k artifact
         | _ => ret episodes
         end ;;
  match eps with
  | VNone => ret tt
  | _ =>
      a <- alloc (ODict {["episodes" := eps]}) ;;
      m <- merge (VRef a) show ;;
      store p k m false
  end.

(** ** Preferences *)

(** [SyncBase.get_enabled_functions]; [prefs] is the framework's
    [Prefs] lookup. *)
Definition get_enabled_functions (prefs : string -> val) (h : list obj) : list string :=
  let result := [] in
  let result := if truthy h (prefs "sync_watched") then result ++ ["watched"] else result in
  let result := if truthy h (prefs "sync_ratings") then result ++ ["ratings"] else result in
  let result := if truthy h (prefs "sync_collection") then result ++ ["collected"] else result in
  result.

(** The preference that switches a function on. *)
Definition pref_of (name : string) : option string :=
  if String.eqb name "watched" then Some "sync_watched"
  else if String.eqb name "ratings" then Some "sync_ratings"
  else if String.eqb name "collected" then Some "sync_collection"
  else None.

(** ** Examples *)

Module Examples.

Definition w0 : world :=
  mkWorld (fun n => 100 + Z.of_nat n) 0 [] [] ∅
          (Some (mkSyncTask [("section", VStr "1")])) ∅ [].

Definition const_handler (v : val) : path -> func := fun _ _ _ => ret v.
Definition raising_handler (e : exn) : path -> func := fun _ _ _ => raise e.

Definition leaf (k : string) (hs : list (string * (path -> func))) : SyncBase :=
  mkSyncBase k None true false hs [].

Definition episode := leaf "episode" [("watched", const_handler (VBool true))].

Definition show_ok : SyncBase :=
  mkSyncBase "show" None true false [("watched", const_handler (VBool true))] [episode].

Definition show_bad : SyncBase :=
  mkSyncBase "show" None true false [("watched", const_handler (VBool false))] [episode].

(** A world in which the show task has run before. *)
Definition w_prior : world :=
  mkWorld (fun n => 100 + Z.of_nat n) 0 [] [] ∅
          (Some (mkSyncTask [("section", VStr "1")]))
          {[("show", VStr "1") := mkSyncStatus "show" (Some true) (Some 7) (Some 3)]} [].

(** A world in which no operation is in progress. *)
Definition w_idle : world :=
  mkWorld (fun n => 100 + Z.of_nat n) 0 [] [] ∅ None ∅ [].

(** A node whose handler [main] triggers two handlers of its own by
    name, [watched] and one that does not exist.  [self_table] is the
    method table the call inside [main] looks the names up in. *)
Definition self_table : SyncBase :=
  mkSyncBase "show" None true false
    [("main", const_handler VNone); ("watched", const_handler (VBool true))] [].

Definition main_handler : path -> func :=
  fun p args kw =>
    r <- trigger self_table p (FuncsList ["watched"; "missing"]) args kw ;;
    b <- all_ r ;;
    ret (VBool b).

Definition show_main : SyncBase :=
  mkSyncBase "show" None true false
    [("main", main_handler); ("watched", const_handler (VBool true))] [].

(** A node without children, constructed. *)
Definition movie : SyncBase := leaf "movie" [].
Definition w_movie : world := snd (init movie [] w0).

(** A world holding one dictionary, handed to [reset] as the inherited
    artifacts. *)
Definition w_seed : world :=
  mkWorld (fun n => 100 + Z.of_nat n) 0 [] [ODict {["shows" := VInt 7]}] ∅
          (Some (mkSyncTask [("section", VStr "1")])) ∅ [].

(** A world holding an inherited mapping whose only value is a list. *)
Definition w_leaf : world :=
  mkWorld (fun n => 100 + Z.of_nat n) 0 [] [OList [VInt 1]; ODict {["k" := VRef 0%nat]}] ∅
          (Some (mkSyncTask [("section", VStr "1")])) ∅ [].

(** The show node constructed, with episodes recorded by its child and
    a show mapping on the heap. *)
Definition w_show : world :=
  snd ((init show_ok [] ;;;
        store ["episode"] "watched" (VInt 5) true ;;;
        alloc (ODict {["title" := VStr "Lost"]})) w0).

(** A sequential node whose only handler raises. *)
Definition show_raising : SyncBase :=
  mkSyncBase "show" None true false
    [("watched", raising_handler (UserError "boom"))] [episode].

(** A sequential node whose second handler raises, after the first has
    returned. *)
Definition show_late_raise : SyncBase :=
  mkSyncBase "show" None true false
    [("collected", const_handler (VBool true));
     ("watched", raising_handler (UserError "boom"))] [episode].

(** The failing show node and the raising one, constructed. *)
Definition w_bad : world := snd (init show_bad [] w0).
Definition w_raising : world := snd (init show_raising [] w0).

(** A threaded node and a batch in which the second function raises. *)
Definition threaded_show : SyncBase :=
  mkSyncBase "show" None true true [] [].

Definition batch3 : list (string * func) :=
  [("a", const_handler (VBool true) []);
   ("b", raising_handler (UserError "boom") []);
   ("c", const_handler (VBool true) [])].

End Examples.

(** ** Vocabulary of the statements *)

(** The instances of the subtree rooted at [p]. *)
Fixpoint paths (cls : SyncBase) (p : path) : list path :=
  p :: (children cls ≫= fun c => paths c (child_path p c)).

(** The optional artifact mapping handed to [reset]: absent, or a
    dictionary. *)
Definition mapping_of (h : list obj) (A : val) : option (gmap string val) :=
  match A with
  | VNone => Some ∅
  | VRef l => match h !! l with
              | Some (ODict d) => Some d
              | _ => None
              end
  | _ => None
  end.

(** Every instance refers to an allocated artifacts object. *)
Definition no_dangling (w : world) : Prop :=
  map_Forall (fun _ ns => (artifacts ns < length (heap w))%nat) (nodes w).

Section reset_vocabulary.
Context (A : val) (h0 : list obj) (d0 : gmap string val).

(** An instance that has been reset since the heap was [h0]. *)
Definition fresh (w : world) (q : path) : Prop :=
  exists ns, nodes w !! q = Some ns
             /\ (length h0 <= artifacts ns)%nat
             /\ is_Some (start_time ns)
             /\ heap w !! artifacts ns = Some (ODict d0).

Record reset_inv (w : world) : Prop := {
  inv_heap : exists n, heap w = h0 ++ replicate n (ODict d0);
  inv_bound : no_dangling w;
  inv_inj : forall q1 q2 ns1 ns2,
    nodes w !! q1 = Some ns1 -> nodes w !! q2 = Some ns2 ->
    (length h0 <= artifacts ns1)%nat -> artifacts ns1 = artifacts ns2 -> q1 = q2
}.

(** The first four statements of [reset], on one instance. *)
Definition reset_node (q : path) : M unit :=
  t <- utcnow ;;
  set_start_time q t ;;;
  a <- copy_or_empty A ;;
  set_node q (mkNodeState (Some t) a).

Definition after_reset_node (q : path) (w : world) : world :=
  set_nodes (<[q := mkNodeState (Some (clock w (ticks w))) (length (heap w))]>
               (alter (fun ns => mkNodeState (Some (clock w (ticks w))) (artifacts ns))
                      q (nodes w)))
    (set_heap (heap w ++ [ODict d0]) (set_ticks (S (ticks w)) w)).

(** What resetting a part of the tree achieves, from [w] to [w']. *)
Definition reset_post (touched : list path) (w w' : world) : Prop :=
  reset_inv w'
  /\ (forall q, fresh w q -> fresh w' q)
  /\ (forall q, q ∈ touched -> fresh w' q)
  /\ (forall q, q ∉ touched -> nodes w' !! q = nodes w !! q).

End reset_vocabulary.

(** The section a status update is filed under: the explicit one, or
    the one of the operation in progress. *)
Definition status_section (section : val) (w : world) : option val :=
  match section with
  | VNone => (fun tk => kw_get "section" (task_kwargs tk)) <$> current w
  | _ => Some section
  end.

(** [start_time or self.start_time]. *)
Definition start_for (start_time' : option Z) (p : path) (w : world) : option Z :=
  match start_time' with
  | Some s => Some s
  | None => nodes w !! p ≫= start_time
  end.

(** The end time of a status update: the explicit one, or the clock. *)
Definition end_for (end_time : option Z) (w : world) : Z :=
  match end_time with
  | Some e => e
  | None => clock w (ticks w)
  end.

(** The Manager calls a status update starts with. *)
Definition status_lookup_events (cls : SyncBase) (section sec : val) : list event :=
  match section with
  | VNone => [EvGetCurrent; EvGetStatus (task_or_key cls) sec]
  | _ => [EvGetStatus (task_or_key cls) sec]
  end.

(** The reading of the status update under which the line is logged
    from the record as fetched and the record is overwritten last. *)
Definition logs_then_updates (cls : SyncBase) (p : path) (success : bool)
    (end_time start_time' : option Z) (section : val) (w : world) : Prop :=
  forall w', update_status cls p success end_time start_time' section w = (Ok tt, w') ->
    exists sec st s e pre,
      statuses w !! (task_or_key cls, sec) = Some st
      /\ trace w' = pre ++ [EvLogInfo (status_key st) (previous_success st)
                                     (previous_timestamp st) (previous_elapsed st);
                            EvStatusUpdate (task_or_key cls) sec success s e].



(** A call of [store_episodes] without explicit episodes that returns
    normally. *)
Definition store_episodes_returns (cls : SyncBase) (p : path) (k : string) (show : val)
    (artifact : option string) (w : world) : Prop :=
  exists w', store_episodes cls p k show VNone artifact w = (Ok tt, w').

(** The instances of the children are as they were. *)
Definition children_unobserved (cls : SyncBase) (p : path) (w w' : world) : Prop :=
  forall c, c ∈ children cls -> nodes w' !! child_path p c = nodes w !! child_path p c.

(** The reading of [run] under which a failure of the node's own
    handlers leaves the children untouched. *)
Definition failure_spares_children (cls : SyncBase) (p : path) (args : list val)
    (kw : kwargs) (w : world) : Prop :=
  forall w1 r w2 w',
    reset cls p (kw_get "artifacts" kw) w = (Ok tt, w1) ->
    trigger cls p FuncsNone args kw w1 = (Ok r, w2) ->
    all_ r w2 = (Ok false, w2) ->
    run cls p args kw w = (Ok false, w') ->
    children_unobserved cls p w w'.

Definition is_status_update (e : event) : bool :=
  match e with
  | EvStatusUpdate _ _ _ _ _ => true
  | _ => false
  end.

(** The reading of [run] under which every call returns a verdict and
    adds one status update. *)
Definition run_contained (cls : SyncBase) (p : path) (args : list val) (kw : kwargs)
    (w : world) : Prop :=
  exists b w', run cls p args kw w = (Ok b, w')
               /\ length (filter (fun e => is_status_update e) (trace w'))
                  = S (length (filter (fun e => is_status_update e) (trace w))).

(** The events of one status update recorded by [run]. *)
Definition status_events (cls : SyncBase) (sec : val) (kk : string) (b : bool)
    (s e : Z) : list event :=
  [EvGetCurrent; EvGetStatus (task_or_key cls) sec;
   EvStatusUpdate (task_or_key cls) sec b s e;
   EvLogInfo kk (Some b) (Some s) (Some (e - s))].

(** An instance as [__init__] leaves it, given the heap [h0] that the
    construction started from: no start time, and an empty artifacts
    dictionary allocated since. *)
Definition pristine (h0 : list obj) (w : world) (q : path) : Prop :=
  exists ns, nodes w !! q = Some ns
             /\ start_time ns = None
             /\ (length h0 <= artifacts ns)%nat
             /\ heap w !! artifacts ns = Some (ODict ∅).

(** What constructing a part of the tree achieves, from [w] to [w']. *)
Definition init_post (h0 : list obj) (touched : list path) (w w' : world) : Prop :=
  reset_inv h0 ∅ w'
  /\ trace w' = trace w
  /\ (forall q, pristine h0 w q -> pristine h0 w' q)
  /\ (forall q, q ∈ touched -> pristine h0 w' q)
  /\ (forall q, q ∉ touched -> nodes w' !! q = nodes w !! q).

(** What a step of status recording may change, from [w] to [w']: the
    trace, which grows, and the records of the task itself. *)
Definition status_frame (cls : SyncBase) (w w' : world) : Prop :=
  heap w' = heap w
  /\ nodes w' = nodes w
  /\ current w' = current w
  /\ (exists evs, trace w' = trace w ++ evs)
  /\ ticks w' = ticks w
  /\ forall k sec, k <> task_or_key cls -> statuses w' !! (k, sec) = statuses w !! (k, sec).

(** An exception that the worker catches and manages to log. *)
Definition swallowed (e : exn) : bool :=
  derives_from_Exception e && bool_decide (format_exn e = None).

(** The exception that leaves the worker when [e] is not swallowed: [e]
    itself when [except Exception] does not catch it, and otherwise what
    formatting the warning raises. *)
Definition escaping (e : exn) : exn :=
  if derives_from_Exception e then default e (format_exn e) else e.

(** The semaphore with one permit taken. *)
Definition acquired (lock : BoundedSemaphore) : BoundedSemaphore :=
  mkSemaphore (Nat.pred (sem_value lock)) (sem_initial lock).

(** The reading of the worker under which nothing that [f] raises
    leaves it. *)
Definition worker_contains (lock : BoundedSemaphore) (results : list val) (f : M val)
    (w : world) : Prop :=
  forall e w1, f w = (Raise e, w1) ->
    exists st w', trigger_spawn lock results f w = (Ok tt, st, w').

(** The functions of a batch in the order their workers finish. *)
Definition scheduled (funcs : list (string * func)) (order : list nat)
    : list (string * func) :=
  omap (fun i => funcs !! i) order.

(** A callable that raises an exception the worker swallows, whatever
    it is given. *)
Definition always_fails (f : func) : Prop :=
  forall args kw w, exists e w', f args kw w = (Raise e, w') /\ swallowed e = true.

(** The circumstances in which a batch hands back one result for every
    function, in the order of the batch: on a threaded node the workers
    finish in the order they were started; on a sequential one [single]
    is not set. *)
Definition whole_batch (cls : SyncBase) (single : val) (w w' : world) : Prop :=
  if threaded cls then sched w = [] else truthy (heap w') single = false.

(** The children [cs] of the instance at [p] run one after the other,
    each with the same arguments; their verdicts, in that order. *)
Fixpoint run_in_turn (cs : list SyncBase) (p : path) (args : list val) (kw : kwargs)
    : M (list bool) :=
  match cs with
  | [] => ret []
  | c :: cs' =>
      b <- run c (child_path p c) args kw ;;
      bs <- run_in_turn cs' p args kw ;;
      ret (b :: bs)
  end.

(** The bound method [run] of the child [c] of the instance at [p]. *)
Definition child_run (p : path) (c : SyncBase) : string * func :=
  (key c, fun args kw => b <- run c (child_path p c) args kw ;; ret (VBool b)).

(** The bound method [run_<name>] of the instance at [p]. *)
Definition bound (p : path) (h : string * (path -> func)) : string * func :=
  (fst h, snd h p).

(** A truthy value of a type that has no [copy] method: [True], a number
    other than zero, a non-empty string or a non-empty list. *)
Definition truthy_without_copy (h : list obj) (A : val) : bool :=
  match A with
  | VNone => false
  | VBool b => b
  | VInt n => negb (Z.eqb n 0)
  | VStr s => negb (String.eqb s "")
  | VRef l => match h !! l with
              | Some (OList xs) => negb (Nat.eqb (length xs) 0)
              | _ => false
              end
  end.

(** * Properties *)

(** ** Running a computation *)

Lemma bind_ok {A B} (m : M A) (k : A -> M B) w a w' :
  m w = (Ok a, w') -> bind m k w = k a w'.
Proof. intros H. unfold bind. by rewrite H. Qed.

Lemma bind_raise {A B} (m : M A) (k : A -> M B) w e w' :
  m w = (Raise e, w') -> bind m k w = (Raise e, w').
Proof. intros H. unfold bind. by rewrite H. Qed.

Lemma bind_assoc {A B C} (m : M A) (f : A -> M B) (g : B -> M C) w :
  bind (bind m f) g w = bind m (fun a => bind (f a) g) w.
Proof. unfold bind. by destruct (m w) as [[a|e|] w']. Qed.

Lemma self_state_ok p w ns :
  nodes w !! p = Some ns -> self_state p w = (Ok ns, w).
Proof. intros H. unfold self_state. by rewrite H. Qed.

Lemma as_dict_ok l d w :
  heap w !! l = Some (ODict d) -> as_dict (VRef l) w = (Ok d, w).
Proof. intros H. unfold as_dict. by rewrite H. Qed.

Lemma dict_setitem_ok a k v d w :
  heap w !! a = Some (ODict d) ->
  dict_setitem a k v w
  = (Ok tt, set_heap (<[a := ODict (<[k := v]> d)]> (heap w)) w).
Proof.
  intros H. unfold dict_setitem. by rewrite (bind_ok _ _ _ _ _ (as_dict_ok _ _ _ H)).
Qed.

Lemma list_append_ok l xs v w :
  heap w !! l = Some (OList xs) ->
  list_append (VRef l) v w
  = (Ok tt, set_heap (<[l := OList (xs ++ [v])]> (heap w)) w).
Proof. intros H. unfold list_append. by rewrite H. Qed.

(** ** The artifact store *)

Section store.
Context (p : path) (k : string) (w : world) (ns : node_state) (d : gmap string val).
Hypothesis Hnode : nodes w !! p = Some ns.
Hypothesis Hdict : heap w !! artifacts ns = Some (ODict d).

Lemma store_single v :
  store p k v true w
  = (Ok tt, set_heap (<[artifacts ns := ODict (<[k := v]> d)]> (heap w)) w).
Proof.
  unfold store. rewrite (bind_ok _ _ _ _ _ (self_state_ok _ _ _ Hnode)).
  by apply dict_setitem_ok.
Qed.

Lemma retrieve_single :
  retrieve p k true w = (Ok (default VNone (d !! k)), w).
Proof.
  unfold retrieve. rewrite (bind_ok _ _ _ _ _ (self_state_ok _ _ _ Hnode)).
  by rewrite (bind_ok _ _ _ _ _ (as_dict_ok _ _ _ Hdict)).
Qed.

Lemma retrieve_present v :
  d !! k = Some v -> retrieve p k false w = (Ok v, w).
Proof.
  intros Hk. unfold retrieve. rewrite (bind_ok _ _ _ _ _ (self_state_ok _ _ _ Hnode)).
  rewrite (bind_ok _ _ _ _ _ (as_dict_ok _ _ _ Hdict)). by rewrite Hk.
Qed.

Lemma retrieve_absent :
  d !! k = None ->
  retrieve p k false w
  = (Ok (VRef (length (heap w))), set_heap (heap w ++ [OList []]) w).
Proof.
  intros Hk. unfold retrieve. rewrite (bind_ok _ _ _ _ _ (self_state_ok _ _ _ Hnode)).
  rewrite (bind_ok _ _ _ _ _ (as_dict_ok _ _ _ Hdict)). by rewrite Hk.
Qed.

Lemma store_append l xs v :
  d !! k = Some (VRef l) -> heap w !! l = Some (OList xs) ->
  store p k v false w
  = (Ok tt, set_heap (<[l := OList (xs ++ [v])]> (heap w)) w).
Proof.
  intros Hk Hl. unfold store. rewrite (bind_ok _ _ _ _ _ (self_state_ok _ _ _ Hnode)).
  rewrite (bind_ok _ _ _ _ _ (as_dict_ok _ _ _ Hdict)). rewrite Hk.
  unfold ret at 1. unfold bind at 1.
  rewrite (bind_ok _ _ _ _ _ (as_dict_ok _ _ _ Hdict)). rewrite Hk.
  by apply list_append_ok.
Qed.

Lemma store_create v :
  d !! k = None ->
  store p k v false w
  = (Ok tt,
     set_heap (<[length (heap w) := OList [v]]>
                 (<[artifacts ns := ODict (<[k := VRef (length (heap w))]> d)]>
                    (heap w ++ [OList []]))) w).
Proof.
  intros Hk. unfold store. rewrite (bind_ok _ _ _ _ _ (self_state_ok _ _ _ Hnode)).
  rewrite (bind_ok _ _ _ _ _ (as_dict_ok _ _ _ Hdict)). rewrite Hk.
  pose proof (lookup_lt_Some _ _ _ Hdict) as Hlt.
  set (w1 := set_heap (heap w ++ [OList []]) w).
  assert (H1 : heap w1 !! artifacts ns = Some (ODict d)).
  { simpl. by rewrite lookup_app_l. }
  assert (Hstep : (l <- alloc (OList []) ;; dict_setitem (artifacts ns) k (VRef l)) w
                  = (Ok tt, set_heap (<[artifacts ns := ODict (<[k := VRef (length (heap w))]> d)]>
                                        (heap w1)) w1)).
  { unfold bind at 1, alloc. fold w1. by apply dict_setitem_ok. }
  rewrite (bind_ok _ _ _ _ _ Hstep).
  set (w2 := set_heap _ w1).
  assert (H2 : heap w2 !! artifacts ns
               = Some (ODict (<[k := VRef (length (heap w))]> d))).
  { simpl. apply list_lookup_insert_eq. rewrite length_app. simpl. lia. }
  rewrite (bind_ok _ _ _ _ _ (as_dict_ok _ _ _ H2)).
  rewrite lookup_insert_eq.
  assert (H3 : heap w2 !! length (heap w) = Some (OList [])).
  { simpl. rewrite list_lookup_insert_ne by lia.
    rewrite lookup_app_r by lia. by rewrite Nat.sub_diag. }
  rewrite (list_append_ok _ _ _ _ H3). done.
Qed.
End store.

Lemma store_single_twice p k v1 v2 w ns d :
  nodes w !! p = Some ns -> heap w !! artifacts ns = Some (ODict d) ->
  exists w', (store p k v1 true ;;; store p k v2 true ;;; retrieve p k true) w = (Ok v2, w').
Proof.
  intros Hn Hd. pose proof (lookup_lt_Some _ _ _ Hd) as Hlt.
  rewrite (bind_ok _ _ _ _ _ (store_single p k w ns d Hn Hd v1)).
  set (w1 := set_heap _ w).
  assert (H1 : heap w1 !! artifacts ns = Some (ODict (<[k := v1]> d))).
  { simpl. by apply list_lookup_insert_eq. }
  rewrite (bind_ok _ _ _ _ _ (store_single p k w1 ns _ Hn H1 v2)).
  set (w2 := set_heap _ w1).
  assert (H2 : heap w2 !! artifacts ns = Some (ODict (<[k := v2]> (<[k := v1]> d)))).
  { simpl. apply list_lookup_insert_eq. by rewrite length_insert. }
  rewrite (retrieve_single p k w2 ns _ Hn H2), lookup_insert_eq. by exists w2.
Qed.

Lemma store_append_retrieve p k v w ns d l xs :
  nodes w !! p = Some ns -> heap w !! artifacts ns = Some (ODict d) ->
  d !! k = Some (VRef l) -> heap w !! l = Some (OList xs) ->
  exists w', (store p k v false ;;; retrieve p k false) w = (Ok (VRef l), w')
             /\ heap w' !! l = Some (OList (xs ++ [v]))
             /\ nodes w' = nodes w
             /\ heap w' !! artifacts ns = Some (ODict d).
Proof.
  intros Hn Hd Hk Hl. pose proof (lookup_lt_Some _ _ _ Hl) as Hlt.
  assert (Hne : l <> artifacts ns) by (intros ->; congruence).
  rewrite (bind_ok _ _ _ _ _ (store_append p k w ns d Hn Hd l xs v Hk Hl)).
  set (w1 := set_heap _ w).
  assert (H1 : heap w1 !! artifacts ns = Some (ODict d)).
  { simpl. by rewrite list_lookup_insert_ne. }
  rewrite (retrieve_present p k w1 ns d Hn H1 _ Hk).
  exists w1. repeat split; try done. simpl. by apply list_lookup_insert_eq.
Qed.

Lemma store_twice_retrieve p k v1 v2 w ns d :
  nodes w !! p = Some ns -> heap w !! artifacts ns = Some (ODict d) ->
  d !! k = None ->
  exists l w', (store p k v1 false ;;; store p k v2 false ;;; retrieve p k false) w
               = (Ok (VRef l), w')
               /\ heap w' !! l = Some (OList [v1; v2]).
Proof.
  intros Hn Hd Hk. pose proof (lookup_lt_Some _ _ _ Hd) as Hlt.
  rewrite (bind_ok _ _ _ _ _ (store_create p k w ns d Hn Hd v1 Hk)).
  set (l := length (heap w)). set (w1 := set_heap _ w).
  assert (H1 : heap w1 !! artifacts ns = Some (ODict (<[k := VRef l]> d))).
  { simpl. rewrite list_lookup_insert_ne by (unfold l; lia).
    apply list_lookup_insert_eq. rewrite length_app. simpl. lia. }
  assert (H2 : heap w1 !! l = Some (OList [v1])).
  { simpl. apply list_lookup_insert_eq. rewrite length_insert, length_app.
    simpl. unfold l. lia. }
  destruct (store_append_retrieve p k v2 w1 ns _ l [v1] Hn H1
              (lookup_insert_eq _ _ _) H2) as (w' & Hrun & Hl & _).
  exists l, w'. by split.
Qed.

(** C5. On a node whose artifacts are a dictionary, two single-valued
    stores under a key leave the later value as what a single-valued
    retrieve returns; two multi-valued stores under a key not stored
    before create a sequence that a retrieve returns as exactly
    [v1; v2]; a multi-valued store under a key that holds a sequence
    appends to it at the end; and a multi-valued retrieve of a key never
    stored returns an empty sequence. *)
Theorem store_retrieve_contract p k v1 v2 w ns d :
  nodes w !! p = Some ns -> heap w !! artifacts ns = Some (ODict d) ->
  (exists w', (store p k v1 true ;;; store p k v2 true ;;; retrieve p k true) w
              = (Ok v2, w'))
  /\ (d !! k = None ->
      exists l w', (store p k v1 false ;;; store p k v2 false ;;; retrieve p k false) w
                   = (Ok (VRef l), w')
                   /\ heap w' !! l = Some (OList [v1; v2]))
  /\ (forall l xs, d !! k = Some (VRef l) -> heap w !! l = Some (OList xs) ->
      exists w', (store p k v1 false ;;; retrieve p k false) w = (Ok (VRef l), w')
                 /\ heap w' !! l = Some (OList (xs ++ [v1])))
  /\ (d !! k = None ->
      exists l w', retrieve p k false w = (Ok (VRef l), w')
                   /\ heap w' !! l = Some (OList [])).
Proof.
  intros Hn Hd. split; [by eapply store_single_twice|].
  split; [by eapply store_twice_retrieve|]. split.
  - intros l xs Hk Hl.
    destruct (store_append_retrieve p k v1 w ns d l xs Hn Hd Hk Hl) as (w' & ? & ? & _).
    by exists w'.
  - intros Hk. rewrite (retrieve_absent p k w ns d Hn Hd Hk).
    eexists _, _. split; [done|]. simpl.
    rewrite lookup_app_r by lia. by rewrite Nat.sub_diag.
Qed.

(** ** Resetting a subtree *)

Lemma SyncBase_tree_ind (P : SyncBase -> Prop) :
  (forall k t a th hs cs, Forall P cs -> P (mkSyncBase k t a th hs cs)) ->
  forall cls, P cls.
Proof.
  intros step. fix IH 1. intros [k t a th hs cs]. apply step.
  induction cs as [|c cs IHcs]; constructor; [apply IH | apply IHcs].
Qed.

Lemma paths_longer cls : forall p q, q ∈ paths cls p -> (length p <= length q)%nat.
Proof.
  induction cls as [k t a th hs cs IH] using SyncBase_tree_ind.
  intros p q. simpl. rewrite elem_of_cons. intros [-> | Hin]; [lia|].
  apply list_elem_of_bind in Hin as (c & Hin & Hc).
  rewrite Forall_forall in IH. apply IH in Hin; [|done]. unfold child_path in Hin. rewrite length_app in Hin. simpl in Hin. lia.
Qed.

Lemma paths_root cls p : p ∈ paths cls p.
Proof. destruct cls. simpl. apply elem_of_cons. by left. Qed.

Section reset.
Context (A : val) (h0 : list obj) (d0 : gmap string val).
Hypothesis HA : mapping_of h0 A = Some d0.

Local Abbreviation fresh := (fresh h0 d0).
Local Abbreviation reset_inv := (reset_inv h0 d0).
Local Abbreviation reset_node := (reset_node A).
Local Abbreviation after_reset_node := (after_reset_node d0).

Lemma copy_or_empty_ok w :
  reset_inv w ->
  copy_or_empty A w = (Ok (length (heap w)), set_heap (heap w ++ [ODict d0]) w).
Proof.
  intros [[n Hh] _ _]. unfold copy_or_empty, bind, get_world.
  destruct A as [| | | |la]; simpl in HA; try discriminate.
  - by injection HA as <-.
  - destruct (h0 !! la) as [[|d]|] eqn:Hla; try discriminate. injection HA as ->.
    assert (Hl : heap w !! la = Some (ODict d0)).
    { rewrite Hh, lookup_app_l; [done|]. by eapply lookup_lt_Some. }
    simpl. rewrite Hl. case_bool_decide as Hd; simpl.
    + by rewrite Hd.
    + by rewrite Hl.
Qed.

Lemma reset_node_ok q w :
  reset_inv w -> reset_node q w = (Ok tt, after_reset_node q w).
Proof.
  intros Hinv. unfold reset_node, bind at 1, utcnow.
  unfold bind at 1, set_start_time, modify.
  set (w1 := set_nodes _ _).
  assert (Hinv1 : reset_inv w1).
  { destruct Hinv as [Hh Hb Hi]. split; [done| |].
    - unfold no_dangling in *. intros q' ns' Hq'. simpl in Hq'.
      destruct (decide (q = q')) as [<-|Hne].
      + rewrite lookup_alter_eq in Hq'.
        destruct (nodes w !! q) as [ns|] eqn:Hq; [|done]. injection Hq' as <-.
        simpl. by apply (Hb q ns).
      + rewrite lookup_alter_ne in Hq' by done. by apply (Hb q' ns').
    - intros q1 q2 ns1 ns2 H1 H2 Hge Heq. simpl in H1, H2.
      assert (Hlk : forall q' ns', alter (fun ns => mkNodeState (Some (clock w (ticks w)))
                       (artifacts ns)) q (nodes w) !! q' = Some ns' ->
                     exists ns, nodes w !! q' = Some ns /\ artifacts ns = artifacts ns').
      { intros q' ns' Hq'. destruct (decide (q = q')) as [<-|Hne].
        - rewrite lookup_alter_eq in Hq'.
          destruct (nodes w !! q) as [ns|] eqn:Hq; [|done]. injection Hq' as <-.
          by exists ns.
        - rewrite lookup_alter_ne in Hq' by done. by exists ns'. }
      apply Hlk in H1 as (m1 & H1 & E1). apply Hlk in H2 as (m2 & H2 & E2).
      apply (Hi q1 q2 m1 m2 H1 H2); congruence. }
  rewrite (bind_ok _ _ _ _ _ (copy_or_empty_ok w1 Hinv1)). done.
Qed.

Lemma after_reset_node_inv q w :
  reset_inv w -> reset_inv (after_reset_node q w).
Proof.
  intros [[n Hh] Hb Hi]. split.
  - exists (S n). change (heap (after_reset_node q w)) with (heap w ++ [ODict d0]).
    by rewrite Hh, replicate_S_end, app_assoc.
  - unfold no_dangling in *. intros q' ns' Hq'. simpl in *. rewrite length_app. simpl.
    destruct (decide (q = q')) as [<-|Hne].
    + rewrite lookup_insert_eq in Hq'. injection Hq' as <-. simpl. lia.
    + rewrite lookup_insert_ne, lookup_alter_ne in Hq' by done.
      specialize (Hb q' ns' Hq'). simpl in Hb. lia.
  - intros q1 q2 ns1 ns2 H1 H2 Hge Heq. simpl in H1, H2.
    destruct (decide (q = q1)) as [<-|Hne1], (decide (q = q2)) as [<-|Hne2]; [done| | |].
    + rewrite lookup_insert_eq in H1. injection H1 as <-.
      rewrite lookup_insert_ne, lookup_alter_ne in H2 by done.
      specialize (Hb q2 ns2 H2). simpl in *. lia.
    + rewrite lookup_insert_eq in H2. injection H2 as <-.
      rewrite lookup_insert_ne, lookup_alter_ne in H1 by done.
      specialize (Hb q1 ns1 H1). simpl in *. lia.
    + rewrite lookup_insert_ne, lookup_alter_ne in H1 by done.
      rewrite lookup_insert_ne, lookup_alter_ne in H2 by done.
      by apply (Hi q1 q2 ns1 ns2).
Qed.

Lemma after_reset_node_fresh q w :
  reset_inv w -> fresh (after_reset_node q w) q.
Proof.
  intros [[n Hh] Hb Hi]. eexists. simpl. rewrite lookup_insert_eq.
  split; [done|]. simpl. split; [rewrite Hh, length_app; lia|]. split; [by eexists|].
  rewrite lookup_app_r by lia. by rewrite Nat.sub_diag.
Qed.

Lemma after_reset_node_keeps q w q' :
  reset_inv w -> fresh w q' -> fresh (after_reset_node q w) q'.
Proof.
  intros Hinv Hf. destruct (decide (q = q')) as [<-|Hne].
  - by apply after_reset_node_fresh.
  - destruct Hf as (ns & Hq & Hge & Hs & Hd). exists ns. simpl.
    rewrite lookup_insert_ne, lookup_alter_ne by done. repeat split; try done.
    rewrite lookup_app_l; [done|]. by eapply lookup_lt_Some.
Qed.
End reset.

Section reset_subtree.
Context (A : val) (h0 : list obj) (d0 : gmap string val).
Hypothesis HA : mapping_of h0 A = Some d0.

Local Abbreviation reset_post := (reset_post h0 d0).

Lemma reset_unfold cls p w :
  reset cls p A w
  = (reset_node A p ;;;
     for_each (fun c => reset c (child_path p c) A) (children cls)) w.
Proof.
  destruct cls. simpl. unfold reset_node, bind, utcnow, set_start_time, modify.
  by destruct (copy_or_empty A _) as [[]].
Qed.

Lemma reset_children_spec cs p :
  Forall (fun c => forall p w, reset_inv h0 d0 w ->
            exists w', reset c p A w = (Ok tt, w')
                       /\ reset_post (paths c p) w w') cs ->
  forall w, reset_inv h0 d0 w ->
    exists w', for_each (fun c => reset c (child_path p c) A) cs w = (Ok tt, w')
               /\ reset_post (cs ≫= fun c => paths c (child_path p c)) w w'.
Proof.
  induction 1 as [|c cs Hc _ IH]; intros w Hinv.
  - exists w. split; [done|]. split; [done|]. split; [done|].
    split; [|done]. intros q Hq. by apply elem_of_nil in Hq.
  - destruct (Hc (child_path p c) w Hinv) as (w1 & Hrun1 & Hinv1 & Hk1 & Hf1 & Ho1).
    destruct (IH w1 Hinv1) as (w2 & Hrun2 & Hinv2 & Hk2 & Hf2 & Ho2).
    exists w2. split.
    { simpl. by rewrite (bind_ok _ _ _ _ _ Hrun1). }
    split; [done|]. split; [by auto|]. split.
    + intros q Hq. change (q ∈ paths c (child_path p c)
                               ++ (cs ≫= fun c => paths c (child_path p c))) in Hq.
      apply elem_of_app in Hq as [Hq|Hq]; auto.
    + intros q Hq. rewrite Ho2, Ho1; [done| |].
      * intros Hin. apply Hq.
        change (q ∈ paths c (child_path p c)
                    ++ (cs ≫= fun c => paths c (child_path p c))).
        apply elem_of_app. by left.
      * intros Hin. apply Hq.
        change (q ∈ paths c (child_path p c)
                    ++ (cs ≫= fun c => paths c (child_path p c))).
        apply elem_of_app. by right.
Qed.

Lemma reset_spec cls :
  forall p w, reset_inv h0 d0 w ->
    exists w', reset cls p A w = (Ok tt, w') /\ reset_post (paths cls p) w w'.
Proof.
  induction cls as [k t a th hs cs IH] using SyncBase_tree_ind. intros p w Hinv.
  pose proof (reset_node_ok A h0 d0 HA p w Hinv) as Hnode.
  pose proof (after_reset_node_inv h0 d0 p w Hinv) as Hinv1.
  destruct (reset_children_spec cs p IH _ Hinv1) as (w2 & Hrun & Hinv2 & Hk & Hf & Ho).
  exists w2. split.
  { rewrite reset_unfold. by rewrite (bind_ok _ _ _ _ _ Hnode). }
  split; [done|]. split.
  { intros q Hq. apply Hk. by apply after_reset_node_keeps. }
  split.
  - intros q Hq. simpl in Hq. apply elem_of_cons in Hq as [->|Hq]; [|by auto].
    apply Hk. by apply after_reset_node_fresh.
  - intros q Hq. simpl in Hq. rewrite not_elem_of_cons in Hq. destruct Hq as [Hne Hq].
    rewrite (Ho q Hq). simpl. by rewrite lookup_insert_ne, lookup_alter_ne.
Qed.

(** The root keeps the clock reading taken on entry: its descendants
    have longer paths. *)
Lemma reset_root_start_time cls p w w' :
  reset_inv h0 d0 w -> reset cls p A w = (Ok tt, w') ->
  exists ns, nodes w' !! p = Some ns /\ start_time ns = Some (clock w (ticks w)).
Proof.
  intros Hinv Hrun. destruct cls as [k t a th hs cs].
  pose proof (reset_node_ok A h0 d0 HA p w Hinv) as Hnode.
  pose proof (after_reset_node_inv h0 d0 p w Hinv) as Hinv1.
  assert (IH : Forall (fun c => forall p w, reset_inv h0 d0 w ->
            exists w', reset c p A w = (Ok tt, w')
                       /\ reset_post (paths c p) w w') cs).
  { apply Forall_forall. intros c _. apply reset_spec. }
  destruct (reset_children_spec cs p IH _ Hinv1) as (w2 & Hrun2 & _ & _ & _ & Ho).
  rewrite reset_unfold, (bind_ok _ _ _ _ _ Hnode) in Hrun. simpl in Hrun.
  rewrite Hrun2 in Hrun. injection Hrun as <-.
  rewrite Ho.
  - simpl. rewrite lookup_insert_eq. by eexists.
  - intros Hin. apply list_elem_of_bind in Hin as (c & Hin & _).
    apply paths_longer in Hin. unfold child_path in Hin.
    rewrite length_app in Hin. simpl in Hin. lia.
Qed.
End reset_subtree.

(** ** What a store leaves alone *)

(** A store changes no instance, and no dictionary object other than
    the artifacts of the instance it is called on. *)
Lemma store_frame p k v single w r w' :
  store p k v single w = (r, w') ->
  nodes w' = nodes w
  /\ forall ns l d, nodes w !! p = Some ns -> l <> artifacts ns ->
       heap w !! l = Some (ODict d) -> heap w' !! l = Some (ODict d).
Proof.
  intros Hrun.
  destruct (nodes w !! p) as [ns|] eqn:Hn; cycle 1.
  { unfold store, bind, self_state in Hrun. rewrite Hn in Hrun. by injection Hrun as _ <-. }
  assert (Hstay : w' = w -> nodes w' = nodes w
            /\ forall ns0 l d, Some ns = Some ns0 -> l <> artifacts ns0 ->
                 heap w !! l = Some (ODict d) -> heap w' !! l = Some (ODict d)).
  { by intros ->. }
  destruct (heap w !! artifacts ns) as [[xs|d]|] eqn:Hd.
  1,3: apply Hstay; unfold store in Hrun;
       rewrite (bind_ok _ _ _ _ _ (self_state_ok _ _ _ Hn)) in Hrun;
       destruct single; unfold dict_setitem, bind, as_dict in Hrun;
       rewrite Hd in Hrun; by injection Hrun as _ <-.
  destruct single.
  { rewrite (store_single p k w ns d Hn Hd) in Hrun. injection Hrun as _ <-.
    split; [done|]. intros ns' l d' [= <-] Hne Hl. simpl.
    by rewrite list_lookup_insert_ne. }
  destruct (d !! k) as [u|] eqn:Hk.
  - assert (Hbad : (forall l xs, u = VRef l -> heap w !! l <> Some (OList xs)) -> w' = w).
    { intros Hno. unfold store in Hrun.
      rewrite (bind_ok _ _ _ _ _ (self_state_ok _ _ _ Hn)) in Hrun.
      rewrite (bind_ok _ _ _ _ _ (as_dict_ok _ _ _ Hd)), Hk in Hrun.
      unfold ret at 1 in Hrun. unfold bind at 1 in Hrun.
      rewrite (bind_ok _ _ _ _ _ (as_dict_ok _ _ _ Hd)), Hk in Hrun.
      unfold list_append in Hrun. destruct u as [| | | |l]; try by injection Hrun as _ <-.
      destruct (heap w !! l) as [[xs|]|] eqn:Hl; try by injection Hrun as _ <-.
      by destruct (Hno l xs). }
    destruct u as [| | | |l]; try (apply Hstay, Hbad; by intros).
    destruct (heap w !! l) as [[xs|]|] eqn:Hl;
      try (apply Hstay, Hbad; intros ? ? [= <-]; by rewrite Hl).
    rewrite (store_append p k w ns d Hn Hd l xs v Hk Hl) in Hrun.
    injection Hrun as _ <-. split; [done|]. intros ns' l' d' [= <-] Hne Hl'. simpl.
    rewrite list_lookup_insert_ne; [done|]. intros ->. congruence.
  - rewrite (store_create p k w ns d Hn Hd v Hk) in Hrun. injection Hrun as _ <-.
    split; [done|]. intros ns' l d' [= <-] Hne Hl. simpl.
    pose proof (lookup_lt_Some _ _ _ Hl) as Hlt.
    rewrite list_lookup_insert_ne by lia. rewrite list_lookup_insert_ne by done.
    by rewrite lookup_app_l.
Qed.

Lemma reset_inv_initial w d0 : no_dangling w -> reset_inv (heap w) d0 w.
Proof.
  intros Hb. split; [|done|].
  - exists 0%nat. simpl. by rewrite app_nil_r.
  - intros q1 q2 ns1 ns2 H1 _ Hge _. specialize (Hb q1 ns1 H1). simpl in Hb. lia.
Qed.

(** C4. [reset(A)], with [A] absent or a dictionary, succeeds; the node's
    [start_time] is the clock reading taken on entry; no object that
    existed before, [A] included, is changed; and every node of the
    subtree ends up with a start time and with an artifacts dictionary
    of its own, allocated by the call and holding the entries of [A]
    (none when [A] is absent).  Afterwards, on any node of the subtree,
    a multi-valued retrieve of a key not in [A] returns an empty
    sequence, a retrieve of a key in [A] returns the value [A] has for
    it, and a store leaves the dictionary [A] and the artifacts
    dictionaries of the other nodes as they were. *)
Theorem reset_artifacts cls p A w d0 :
  no_dangling w -> mapping_of (heap w) A = Some d0 ->
  exists w',
    reset cls p A w = (Ok tt, w')
    /\ (exists ns, nodes w' !! p = Some ns /\ start_time ns = Some (clock w (ticks w)))
    /\ (forall l o, heap w !! l = Some o -> heap w' !! l = Some o)
    /\ forall q, q ∈ paths cls p ->
         exists ns,
           nodes w' !! q = Some ns
           /\ is_Some (start_time ns)
           /\ (length (heap w) <= artifacts ns)%nat
           /\ heap w' !! artifacts ns = Some (ODict d0)
           /\ (forall k, d0 !! k = None ->
                 exists l w'', retrieve q k false w' = (Ok (VRef l), w'')
                               /\ heap w'' !! l = Some (OList []))
           /\ (forall k v, d0 !! k = Some v -> retrieve q k false w' = (Ok v, w'))
           /\ (forall k v single r w'', store q k v single w' = (r, w'') ->
                 (forall la, A = VRef la -> heap w'' !! la = Some (ODict d0))
                 /\ (forall q' ns', q' ∈ paths cls p -> q' <> q ->
                       nodes w'' !! q' = Some ns' ->
                       artifacts ns' <> artifacts ns
                       /\ heap w'' !! artifacts ns' = Some (ODict d0))).
Proof.
  intros Hb HA. pose proof (reset_inv_initial w d0 Hb) as Hinv.
  destruct (reset_spec A (heap w) d0 HA cls p w Hinv)
    as (w' & Hrun & [[n Hh] Hb' Hinj] & _ & Hfresh & _).
  exists w'. split; [done|]. split; [by eapply reset_root_start_time|].
  assert (Hold : forall l o, heap w !! l = Some o -> heap w' !! l = Some o).
  { intros l o Hl. rewrite Hh, lookup_app_l; [done|]. by eapply lookup_lt_Some. }
  split; [done|]. intros q Hq.
  destruct (Hfresh q Hq) as (ns & Hn & Hge & Hst & Hd).
  exists ns. do 4 (split; [done|]). split; [|split].
  - intros k Hk. rewrite (retrieve_absent q k w' ns d0 Hn Hd Hk).
    eexists _, _. split; [done|]. simpl. rewrite lookup_app_r by lia.
    by rewrite Nat.sub_diag.
  - intros k v Hk. by apply (retrieve_present q k w' ns d0 Hn Hd).
  - intros k v single r w'' Hstore.
    destruct (store_frame _ _ _ _ _ _ _ Hstore) as [Hnodes Hframe]. split.
    + intros la ->. simpl in HA.
      destruct (heap w !! la) as [[|d]|] eqn:Hla; try discriminate. injection HA as ->.
      apply (Hframe ns); [done| |by apply Hold].
      apply lookup_lt_Some in Hla. lia.
    + intros q' ns' Hq' Hne Hn'. rewrite Hnodes in Hn'.
      destruct (Hfresh q' Hq') as (ns2 & Hn2 & Hge2 & _ & Hd2).
      rewrite Hn' in Hn2. injection Hn2 as <-.
      assert (Hloc : artifacts ns' <> artifacts ns).
      { intros Heq. apply Hne. by apply (Hinj q' q ns' ns). }
      split; [done|]. by apply (Hframe ns).
Qed.

(** ** Status updates *)

Section update_status.
Context (cls : SyncBase) (p : path) (success : bool) (end_time start_time' : option Z)
        (section : val) (w : world).

Lemma get_status_idle :
  current w = None ->
  get_status cls VNone w = (Ok None, emit EvGetCurrent w).
Proof.
  intros Hc. unfold get_status, manager_get_current, bind, modify, get_world.
  cbn. by rewrite Hc.
Qed.

Lemma update_status_idle :
  current w = None ->
  exists w', update_status cls p success end_time start_time' VNone w
             = (Raise AttributeError, w')
             /\ trace w' = trace w ++ [EvGetCurrent]
             /\ statuses w' = statuses w.
Proof.
  intros Hc. unfold update_status.
  destruct end_time as [e|]; unfold bind at 1; cbn.
  - rewrite (bind_ok _ _ _ _ _ (get_status_idle Hc)). by eexists.
  - unfold get_status, manager_get_current, bind, modify, get_world. cbn.
    rewrite Hc. by eexists.
Qed.

Lemma update_status_ok sec s :
  status_section section w = Some sec -> start_for start_time' p w = Some s ->
  exists w' kk,
    update_status cls p success end_time start_time' section w = (Ok tt, w')
    /\ trace w' = trace w ++ status_lookup_events cls section sec
                   ++ [EvStatusUpdate (task_or_key cls) sec success s (end_for end_time w);
                       EvLogInfo kk (Some success) (Some s) (Some (end_for end_time w - s))]
    /\ statuses w' !! (task_or_key cls, sec)
       = Some (mkSyncStatus kk (Some success) (Some s) (Some (end_for end_time w - s)))
    /\ kk = default (task_or_key cls) (status_key <$> statuses w !! (task_or_key cls, sec))
    /\ heap w' = heap w /\ nodes w' = nodes w /\ current w' = current w.
Proof.
  intros Hsec Hs. unfold update_status.
  set (w1 := match end_time with Some _ => w | None => set_ticks (S (ticks w)) w end).
  assert (H1 : match end_time with Some e => ret e | None => utcnow end w
               = (Ok (end_for end_time w), w1)).
  { unfold w1. by destruct end_time. }
  rewrite (bind_ok _ _ _ _ _ H1).
  assert (Hf : heap w1 = heap w /\ nodes w1 = nodes w /\ current w1 = current w
               /\ statuses w1 = statuses w /\ trace w1 = trace w).
  { unfold w1. by destruct end_time. }
  destruct Hf as (Hh1 & Hn1 & Hc1 & Hst1 & Ht1).
  set (k := task_or_key cls).
  assert (Hget : exists w2, get_status cls section w1 = (Ok (Some (k, sec)), w2)
            /\ trace w2 = trace w ++ status_lookup_events cls section sec
            /\ statuses w2 !! (k, sec)
               = Some (default (mkSyncStatus k None None None) (statuses w !! (k, sec)))
            /\ heap w2 = heap w /\ nodes w2 = nodes w /\ current w2 = current w).
  { unfold get_status, status_section, status_lookup_events in *.
    destruct section as [| | | |]; cbn in Hsec.
    1: { destruct (current w) as [tk|] eqn:Hc; [|done]. cbn in Hsec. injection Hsec as <-.
         unfold manager_get_current, manager_get_status, bind, modify, get_world. cbn.
         rewrite Hc1, ?Hc. cbn. rewrite Hst1. fold k.
         destruct (statuses w !! (k, kw_get "section" (task_kwargs tk))) eqn:Hlk; cbn.
         - eexists. split; [done|]. cbn. rewrite Ht1, Hst1, Hlk, <-app_assoc.
           by repeat split.
         - eexists. split; [done|]. cbn. rewrite lookup_insert_eq, Ht1, <-app_assoc.
           by repeat split. }
    all: injection Hsec as <-;
      unfold manager_get_status, bind, modify, get_world; cbn; rewrite Hst1; fold k;
      match goal with |- context [statuses w !! ?key] =>
        destruct (statuses w !! key) eqn:Hlk end; cbn;
      (eexists; split; [done|]; cbn; rewrite ?lookup_insert_eq, ?Ht1, ?Hst1, ?Hlk;
       by repeat split). }
  destruct Hget as (w2 & Hget & Ht2 & Hst2 & Hh2 & Hn2 & Hc2).
  rewrite (bind_ok _ _ _ _ _ Hget).
  assert (Hstart : match start_time' with
                   | Some s => ret (Some s)
                   | None => ns <- self_state p ;; ret (start_time ns)
                   end w2 = (Ok (Some s), w2)).
  { unfold start_for in Hs. destruct start_time' as [s'|]; [by injection Hs as ->|].
    unfold bind, self_state, ret. rewrite Hn2.
    destruct (nodes w !! p) as [ns|]; [|done]. cbn in Hs. by rewrite Hs. }
  rewrite (bind_ok _ _ _ _ _ Hstart).
  unfold status_update, status_fields, bind, modify. cbn. rewrite Hst2. cbn.
  rewrite lookup_insert_eq. cbn.
  eexists _, _. split; [done|]. cbn. rewrite lookup_insert_eq, Ht2, Hh2, Hn2, Hc2.
  rewrite <-!app_assoc. repeat split; try done.
  by destruct (statuses w !! (k, sec)).
Qed.
End update_status.

(** C10. With no explicit section and no operation in progress,
    [get_status] asks the Manager for the current operation, returns
    [None] and makes no [manager.get_status] call; [update_status] in
    that state raises an [AttributeError] and leaves the status records
    as they are. *)
Theorem get_status_without_current cls p success end_time start_time' w :
  current w = None ->
  get_status cls VNone w = (Ok None, emit EvGetCurrent w)
  /\ exists w', update_status cls p success end_time start_time' VNone w
                = (Raise AttributeError, w')
                /\ trace w' = trace w ++ [EvGetCurrent]
                /\ statuses w' = statuses w.
Proof.
  intros Hc. split; [by apply get_status_idle|]. by apply update_status_idle.
Qed.

Lemma get_status_without_current_witness :
  get_status Examples.show_ok VNone Examples.w_idle
  = (Ok None, emit EvGetCurrent Examples.w_idle)
  /\ exists w', update_status Examples.show_ok [] true None None VNone Examples.w_idle
                = (Raise AttributeError, w')
                /\ trace w' = trace Examples.w_idle ++ [EvGetCurrent]
                /\ statuses w' = statuses Examples.w_idle.
Proof. apply get_status_without_current. reflexivity. Defined.

(** C6, as the code has it. When a section and a start time are
    available, [update_status] fetches or creates the record, applies
    the update, and only then logs a line, which carries the fields of
    the record as updated: the new success flag, the start time and the
    elapsed duration.  After the call the record holds these values. *)
Theorem update_status_order cls p success end_time start_time' section w sec s :
  status_section section w = Some sec -> start_for start_time' p w = Some s ->
  exists w' kk,
    update_status cls p success end_time start_time' section w = (Ok tt, w')
    /\ trace w' = trace w ++ status_lookup_events cls section sec
                   ++ [EvStatusUpdate (task_or_key cls) sec success s (end_for end_time w);
                       EvLogInfo kk (Some success) (Some s) (Some (end_for end_time w - s))]
    /\ statuses w' !! (task_or_key cls, sec)
       = Some (mkSyncStatus kk (Some success) (Some s) (Some (end_for end_time w - s))).
Proof.
  intros Hsec Hs.
  destruct (update_status_ok cls p success end_time start_time' section w sec s Hsec Hs)
    as (w' & kk & Hrun & Ht & Hst & _).
  by exists w', kk.
Qed.

Lemma update_status_order_witness :
  exists w' kk,
    update_status Examples.show_ok [] false (Some 50) (Some 40) VNone Examples.w_prior
    = (Ok tt, w')
    /\ trace w' = [EvGetCurrent; EvGetStatus "show" (VStr "1");
                   EvStatusUpdate "show" (VStr "1") false 40 50;
                   EvLogInfo kk (Some false) (Some 40) (Some 10)]
    /\ statuses w' !! ("show", VStr "1")
       = Some (mkSyncStatus kk (Some false) (Some 40) (Some 10)).
Proof.
  apply (update_status_order Examples.show_ok [] false (Some 50) (Some 40) VNone
           Examples.w_prior (VStr "1") 40); reflexivity.
Defined.

(** C6, as stated, fails: for a record whose last run succeeded, the
    line logged by [update_status(False)] is the last event, after the
    update, and reports the failure just recorded. *)
Lemma update_status_logs_after_update :
  ~ logs_then_updates Examples.show_ok [] false (Some 50) (Some 40) VNone Examples.w_prior.
Proof.
  intros H.
  destruct (update_status Examples.show_ok [] false (Some 50) (Some 40) VNone
              Examples.w_prior) as [r w'] eqn:Hrun.
  vm_compute in Hrun. injection Hrun as <- <-.
  destruct (H _ eq_refl) as (sec & st & s & e & pre & _ & Ht).
  apply (f_equal (@rev event)) in Ht. rewrite rev_app_distr in Ht. discriminate Ht.
Qed.

(** ** Sequential batches *)

Lemma trigger_run_sequential cls funcs single args kw w :
  threaded cls = false ->
  trigger_run cls funcs single args kw w
  = (results <- call_each funcs args kw ;;
     w' <- get_world ;;
     if negb (truthy (heap w') single) then ret (Results results)
     else match results with
          | r :: _ => ret (First r)
          | [] => ret (Results [])
          end) w.
Proof.
  intros Hth. unfold trigger_run. rewrite Hth. destruct funcs as [|[n f] funcs].
  - simpl. unfold bind, get_world, ret. by destruct (truthy (heap w) single).
  - simpl. unfold bind. destruct (f args kw w) as [[r|e|] w1]; try reflexivity.
    destruct (call_each funcs args kw w1) as [[rs|e|] w2]; try reflexivity.
Qed.

Lemma call_each_app fs1 fs2 args kw w :
  call_each (fs1 ++ fs2) args kw w
  = (r1 <- call_each fs1 args kw ;; r2 <- call_each fs2 args kw ;; ret (r1 ++ r2)) w.
Proof.
  revert w. induction fs1 as [|[n f] fs1 IH]; intros w.
  - simpl. unfold bind, ret. by destruct (call_each fs2 args kw w) as [[r2|e|] w2].
  - simpl. unfold bind. destruct (f args kw w) as [[r|e|] w1]; try reflexivity.
    rewrite IH. unfold bind.
    destruct (call_each fs1 args kw w1) as [[r1|e|] w2]; try reflexivity.
    unfold ret. simpl. by destruct (call_each fs2 args kw w2) as [[r2|e|] w3].
Qed.

Lemma call_each_length fs args kw : forall w rs w',
  call_each fs args kw w = (Ok rs, w') -> length rs = length fs.
Proof.
  induction fs as [|[n f] fs IH]; intros w rs w' Hrun.
  - by injection Hrun as <- _.
  - simpl in Hrun. unfold bind in Hrun.
    destruct (f args kw w) as [[r|e|] w1]; try discriminate Hrun.
    destruct (call_each fs args kw w1) as [[rs1|e|] w2] eqn:Hrest; try discriminate Hrun.
    injection Hrun as <- _. simpl. f_equal. by eapply IH.
Qed.

Lemma trigger_run_sequential_results cls funcs args kw w rs w' :
  threaded cls = false ->
  trigger_run cls funcs (VBool false) args kw w = (Ok (Results rs), w') <->
  call_each funcs args kw w = (Ok rs, w').
Proof.
  intros Hth. rewrite trigger_run_sequential by done. unfold bind, get_world, ret. simpl.
  destruct (call_each funcs args kw w) as [[rs1|e|] w1]; split; intros H;
    try discriminate H; by injection H as <- <-.
Qed.

(** ** Workers and fan-out *)

Lemma trigger_spawn_run lock results (f : M val) w :
  (0 < sem_value lock <= sem_initial lock)%nat ->
  trigger_spawn lock results f w
  = match f w with
    | (Ok v, w1) => (Ok tt, (lock, results ++ [v]), w1)
    | (Raise e, w1) =>
        if swallowed e then (Ok tt, (lock, results), emit (EvLogWarn e) w1)
        else (Raise (escaping e), (acquired lock, results), w1)
    | (Hang, w1) => (Hang, (acquired lock, results), w1)
    end.
Proof.
  intros [Hpos Hle]. destruct lock as [[|n] i]; simpl in *; [lia|].
  unfold trigger_spawn, sem_acquire, sem_release, swallowed, escaping, acquired. simpl.
  assert (Hi : (i <=? n)%nat = false) by (apply Nat.leb_gt; lia).
  destruct (f w) as [[v|e|] w1]; rewrite ?Hi; try done.
  destruct (derives_from_Exception e); [|done]. simpl.
  destruct (format_exn e) as [e'|]; simpl; by rewrite ?Hi.
Qed.

(** C2, as the code has it. One invocation of the worker, on a semaphore
    with a free permit.  If [f] returns a value, that value, and nothing
    else, is appended to [results] and the permit is given back.  If [f]
    raises an exception that derives from [Exception] and that can be
    formatted, the worker returns normally, a warning with the exception
    is logged, [results] is exactly what it was and the permit is given
    back.  An exception that does not derive from [Exception] is not
    caught: it leaves the worker, with [results] as it was, nothing
    logged and the permit still taken.  So does the exception raised
    while the warning is formatted, when the exception caught cannot be
    formatted. *)
Theorem trigger_spawn_boundary lock results (f : M val) w :
  (0 < sem_value lock <= sem_initial lock)%nat ->
  (forall v w1, f w = (Ok v, w1) ->
     trigger_spawn lock results f w = (Ok tt, (lock, results ++ [v]), w1))
  /\ (forall e w1, f w = (Raise e, w1) ->
       derives_from_Exception e = true -> format_exn e = None ->
       trigger_spawn lock results f w = (Ok tt, (lock, results), emit (EvLogWarn e) w1)
       /\ trace (emit (EvLogWarn e) w1) = trace w1 ++ [EvLogWarn e])
  /\ (forall e w1, f w = (Raise e, w1) ->
       derives_from_Exception e = false ->
       trigger_spawn lock results f w = (Raise e, (acquired lock, results), w1))
  /\ (forall e e' w1, f w = (Raise e, w1) ->
       derives_from_Exception e = true -> format_exn e = Some e' ->
       trigger_spawn lock results f w = (Raise e', (acquired lock, results), w1)).
Proof.
  intros Hlock. rewrite (trigger_spawn_run lock results f w Hlock).
  split; [|split; [|split]].
  - by intros v w1 ->.
  - intros e w1 -> Hd Hf. unfold swallowed. by rewrite Hd, Hf.
  - intros e w1 -> Hd. unfold swallowed, escaping. by rewrite Hd.
  - intros e e' w1 -> Hd Hf. unfold swallowed, escaping. by rewrite Hd, Hf.
Qed.

Lemma trigger_spawn_boundary_witness :
  trigger_spawn (mkSemaphore 2 2) [VBool true]
    (Examples.raising_handler (UserError "boom") [] [] []) Examples.w0
  = (Ok tt, (mkSemaphore 2 2, [VBool true]), emit (EvLogWarn (UserError "boom")) Examples.w0)
  /\ trigger_spawn (mkSemaphore 2 2) [VBool true]
       (Examples.const_handler (VInt 7) [] [] []) Examples.w0
     = (Ok tt, (mkSemaphore 2 2, [VBool true; VInt 7]), Examples.w0)
  /\ trigger_spawn (mkSemaphore 2 2) [VBool true]
       (Examples.raising_handler KeyboardInterrupt [] [] []) Examples.w0
     = (Raise KeyboardInterrupt, (mkSemaphore 1 2, [VBool true]), Examples.w0)
  /\ trigger_spawn (mkSemaphore 2 2) [VBool true]
       (Examples.raising_handler (NonAsciiError "e") [] [] []) Examples.w0
     = (Raise UnicodeEncodeError, (mkSemaphore 1 2, [VBool true]), Examples.w0).
Proof.
  assert (Hlock : (0 < sem_value (mkSemaphore 2 2) <= sem_initial (mkSemaphore 2 2))%nat)
    by (simpl; lia).
  split; [|split; [|split]].
  - destruct (trigger_spawn_boundary (mkSemaphore 2 2) [VBool true]
                (Examples.raising_handler (UserError "boom") [] [] []) Examples.w0 Hlock)
      as (_ & Hraise & _).
    by destruct (Hraise (UserError "boom") Examples.w0 eq_refl eq_refl eq_refl).
  - destruct (trigger_spawn_boundary (mkSemaphore 2 2) [VBool true]
                (Examples.const_handler (VInt 7) [] [] []) Examples.w0 Hlock)
      as (Hret & _).
    exact (Hret (VInt 7) Examples.w0 eq_refl).
  - destruct (trigger_spawn_boundary (mkSemaphore 2 2) [VBool true]
                (Examples.raising_handler KeyboardInterrupt [] [] []) Examples.w0 Hlock)
      as (_ & _ & Hesc & _).
    exact (Hesc KeyboardInterrupt Examples.w0 eq_refl eq_refl).
  - destruct (trigger_spawn_boundary (mkSemaphore 2 2) [VBool true]
                (Examples.raising_handler (NonAsciiError "e") [] [] []) Examples.w0 Hlock)
      as (_ & _ & _ & Hfmt).
    exact (Hfmt (NonAsciiError "e") UnicodeEncodeError Examples.w0 eq_refl eq_refl eq_refl).
Defined.

(** C2, as stated, fails: a function that raises [SystemExit] is not
    caught by [except Exception]; the exception leaves the worker and
    the permit is not given back. *)
Lemma trigger_spawn_lets_system_exit_escape :
  ~ worker_contains (mkSemaphore 2 2) [VBool true]
      (Examples.raising_handler SystemExit [] [] []) Examples.w0.
Proof.
  intros H. destruct (H SystemExit Examples.w0 eq_refl) as (st & w' & Hrun).
  vm_compute in Hrun. discriminate Hrun.
Qed.

Lemma acquire_all_ok n j i w :
  acquire_all n (mkSemaphore (n + j) i) w = (Ok (mkSemaphore j i), w).
Proof. induction n as [|n IH]; simpl; [done|]. apply IH. Qed.




(** When the scheduled functions all return, the workers leave the
    semaphore full and the results of a sequential pass over them. *)
Lemma run_workers_returning funcs args kw n :
  (0 < n)%nat ->
  forall order results w rs w',
    call_each (scheduled funcs order) args kw w = (Ok rs, w') ->
    run_workers funcs args kw order (mkSemaphore n n) results w
    = ((mkSemaphore n n, results ++ rs), w').
Proof.
  intros Hn. induction order as [|i order IH]; intros results w rs w' Hcall.
  - injection Hcall as <- <-. simpl. by rewrite app_nil_r.
  - unfold scheduled in Hcall.
    change (omap (fun i => funcs !! i) (i :: order))
      with (match funcs !! i with
            | Some y => y :: scheduled funcs order
            | None => scheduled funcs order
            end) in Hcall.
    simpl. destruct (funcs !! i) as [[name f]|]; [|by apply IH].
    simpl in Hcall. unfold bind in Hcall.
    rewrite (trigger_spawn_run (mkSemaphore n n) results (f args kw) w) by (simpl; lia).
    destruct (f args kw w) as [[v|e|] w1]; try discriminate Hcall.
    destruct (call_each (scheduled funcs order) args kw w1) as [[rs1|e|] w2] eqn:Hrest;
      try discriminate Hcall.
    injection Hcall as <- <-. simpl. rewrite (IH _ _ _ _ Hrest).
    by rewrite <-app_assoc.
Qed.

Lemma scheduled_in_start_order (funcs : list (string * func)) :
  scheduled funcs (seq 0 (length funcs)) = funcs.
Proof.
  unfold scheduled.
  assert (H : forall pre post : list (string * func),
            omap (fun i => (pre ++ post) !! i) (seq (length pre) (length post)) = post).
  { intros pre post. revert pre. induction post as [|x post IH]; intros pre; [done|].
    simpl.
    change (omap ?g (length pre :: ?l))
      with (match g (length pre) with Some y => y :: omap g l | None => omap g l end).
    cbv beta. rewrite lookup_app_r by lia. rewrite Nat.sub_diag. simpl. f_equal.
    specialize (IH (pre ++ [x])). rewrite length_app in IH. simpl in IH.
    rewrite <-app_assoc in IH. simpl in IH.
    by replace (length pre + 1)%nat with (S (length pre)) in IH by lia. }
  apply (H [] funcs).
Qed.

Lemma scheduled_length (funcs : list (string * func)) order :
  Forall (fun i => (i < length funcs)%nat) order ->
  length (scheduled funcs order) = length order.
Proof.
  induction 1 as [|i order Hi _ IH]; [done|]. unfold scheduled in *.
  change (omap ?g (i :: order))
    with (match g i with Some y => y :: omap g order | None => omap g order end).
  cbv beta. apply lookup_lt_is_Some in Hi as [x ->]. simpl. by rewrite IH.
Qed.

Lemma next_schedule_length n w order w' :
  next_schedule n w = (Ok order, w') ->
  (length order <= n)%nat /\ Forall (fun i => (i < n)%nat) order.
Proof.
  unfold next_schedule. destruct (sched w) as [|s rest]; intros [= <- <-].
  - split; [by rewrite length_seq|]. apply Forall_forall. intros i Hi.
    apply elem_of_seq in Hi. lia.
  - split.
    + apply Nat.le_trans with (length (seq 0 n)); [|by rewrite length_seq].
      apply submseteq_length, NoDup_submseteq.
      * apply NoDup_remove_dups.
      * intros i Hi. apply elem_of_remove_dups, list_elem_of_filter in Hi as [Hi _].
        apply elem_of_seq. lia.
    + apply Forall_forall. intros i Hi.
      by apply elem_of_remove_dups, list_elem_of_filter in Hi as [Hi _].
Qed.

Lemma trigger_run_threaded cls funcs single args kw w :
  threaded cls = true -> funcs <> [] ->
  exists order w1,
    next_schedule (length funcs) w = (Ok order, w1)
    /\ trigger_run cls funcs single args kw w
       = (acquire_all (length funcs)
            (fst (fst (run_workers funcs args kw order
                         (mkSemaphore (length funcs) (length funcs)) [] w1))) ;;;
          ret (Results (snd (fst (run_workers funcs args kw order
                                    (mkSemaphore (length funcs) (length funcs)) [] w1)))))
           (snd (run_workers funcs args kw order
                   (mkSemaphore (length funcs) (length funcs)) [] w1)).
Proof.
  intros Hth Hne. destruct funcs as [|nf funcs]; [done|].
  unfold trigger_run. rewrite Hth.
  destruct (next_schedule (length (nf :: funcs)) w) as [r w1] eqn:Hs.
  assert (exists order, r = Ok order) as [order ->].
  { unfold next_schedule in Hs. destruct (sched w); injection Hs as <- _; by eexists. }
  exists order, w1. split; [done|]. rewrite (bind_ok _ _ _ _ _ Hs).
  unfold bind at 1.
  by destruct (run_workers (nf :: funcs) args kw order _ [] w1) as [st w2].
Qed.

(** On a threaded node, when the functions whose workers finish all
    return, the batch hands back what they returned, in the order they
    finished. *)
Lemma trigger_run_threaded_returning cls funcs single args kw w order w1 rs w2 :
  threaded cls = true -> funcs <> [] ->
  next_schedule (length funcs) w = (Ok order, w1) ->
  call_each (scheduled funcs order) args kw w1 = (Ok rs, w2) ->
  trigger_run cls funcs single args kw w = (Ok (Results rs), w2)
  /\ length rs = length order.
Proof.
  intros Hth Hne Hs Hcall.
  assert (Hlen : length rs = length order).
  { rewrite (call_each_length _ _ _ _ _ _ Hcall). apply scheduled_length.
    by apply (next_schedule_length _ _ _ _ Hs). }
  split; [|done].
  assert (Hpos : (0 < length funcs)%nat) by (destruct funcs; [done|simpl; lia]).
  destruct (trigger_run_threaded cls funcs single args kw w Hth Hne)
    as (order' & w1' & Hs' & Heq).
  rewrite Hs in Hs'. injection Hs' as <- <-. rewrite Heq.
  rewrite (run_workers_returning funcs args kw _ Hpos order [] w1 rs w2 Hcall). simpl.
  pose proof (acquire_all_ok (length funcs) 0 (length funcs) w2) as Ha.
  rewrite Nat.add_0_r in Ha. unfold bind. by rewrite Ha.
Qed.

Lemma trigger_run_threaded_in_order cls funcs single args kw w rs w2 :
  threaded cls = true -> sched w = [] ->
  call_each funcs args kw w = (Ok rs, w2) ->
  trigger_run cls funcs single args kw w = (Ok (Results rs), w2)
  /\ length rs = length funcs.
Proof.
  intros Hth Hsched Hcall.
  destruct (decide (funcs = [])) as [->|Hne].
  { by injection Hcall as <- <-. }
  assert (Hs : next_schedule (length funcs) w = (Ok (seq 0 (length funcs)), w)).
  { unfold next_schedule. by rewrite Hsched. }
  rewrite <-(scheduled_in_start_order funcs) in Hcall at 1.
  destruct (trigger_run_threaded_returning _ _ single _ _ _ _ _ _ _ Hth Hne Hs Hcall)
    as [Hrun Hlen].
  split; [done|]. by rewrite Hlen, length_seq.
Qed.

Lemma trigger_run_whole_batch cls funcs single args kw w rs w' :
  whole_batch cls single w w' ->
  call_each funcs args kw w = (Ok rs, w') ->
  trigger_run cls funcs single args kw w = (Ok (Results rs), w').
Proof.
  unfold whole_batch. intros Hb Hcall. destruct (threaded cls) eqn:Hth.
  - by apply trigger_run_threaded_in_order.
  - rewrite trigger_run_sequential by done. rewrite (bind_ok _ _ _ _ _ Hcall).
    unfold bind, get_world, ret. by rewrite Hb.
Qed.



(** ** Handlers that do not exist *)





Lemma find_unique_key {V} (l : list (string * V)) h :
  NoDup (map fst l) -> h ∈ l ->
  find (fun x => String.eqb (fst x) (fst h)) l = Some h.
Proof.
  induction l as [|x l IH]; intros Hnd Hin; [by apply elem_of_nil in Hin|].
  simpl in Hnd. apply NoDup_cons in Hnd as [Hx Hnd].
  apply elem_of_cons in Hin as [->|Hin].
  - simpl. by rewrite String.eqb_refl.
  - simpl. destruct (String.eqb (fst x) (fst h)) eqn:Heq; [|by apply IH].
    apply String.eqb_eq in Heq. exfalso. apply Hx. rewrite Heq.
    by apply list_elem_of_fmap_2.
Qed.

(** With distinct handler names, the discovered names resolve to the
    handlers themselves, bound to the instance, in the order listed. *)
Lemma omap_resolve_bound cls p :
  NoDup (map fst (handlers cls)) ->
  omap (resolve cls p) (map fst (handlers cls)) = map (bound p) (handlers cls).
Proof.
  intros Hnd.
  assert (H : forall hs, (forall h, h ∈ hs -> h ∈ handlers cls) ->
            omap (resolve cls p) (map fst hs) = map (bound p) hs).
  { induction hs as [|h hs IH]; intros Hin; [done|].
    change (omap (resolve cls p) (map fst (h :: hs)))
      with (match resolve cls p (fst h) with
            | Some y => y :: omap (resolve cls p) (map fst hs)
            | None => omap (resolve cls p) (map fst hs)
            end).
    unfold resolve at 1. rewrite (find_unique_key (handlers cls) h Hnd) by (apply Hin; by left).
    simpl. f_equal. apply IH. intros h' Hh'. apply Hin. by right. }
  by apply H.
Qed.





Lemma store_retrieve_contract_witness :
  exists l w',
    (store [] "k" (VInt 1) false ;;; store [] "k" (VInt 2) false ;;; retrieve [] "k" false)
      Examples.w_movie = (Ok (VRef l), w')
    /\ heap w' !! l = Some (OList [VInt 1; VInt 2]).
Proof.
  destruct (store_retrieve_contract [] "k" (VInt 1) (VInt 2) Examples.w_movie
              (mkNodeState None 0%nat) ∅ eq_refl eq_refl) as (_ & H & _).
  apply H. reflexivity.
Defined.

Lemma reset_artifacts_witness :
  exists w', reset Examples.show_ok [] (VRef 0%nat) Examples.w_seed = (Ok tt, w')
             /\ heap w' !! 0%nat = Some (ODict {["shows" := VInt 7]}).
Proof.
  destruct (reset_artifacts Examples.show_ok [] (VRef 0%nat) Examples.w_seed
              {["shows" := VInt 7]}) as (w' & Hrun & _ & Hold & _).
  - apply map_Forall_empty.
  - reflexivity.
  - exists w'. split; [exact Hrun|]. by apply Hold.
Defined.

(** ** Episodes *)

Section store_episodes.
Context (cls : SyncBase) (p : path) (k : string) (show episodes : val)
        (artifact : option string) (w : world).
Context (c : SyncBase) (nsc : node_state) (dc : gmap string val).
Hypothesis Hchild : child cls "episode" = Some c.
Hypothesis Hnsc : nodes w !! child_path p c = Some nsc.
Hypothesis Hdc : heap w !! artifacts nsc = Some (ODict dc).

Lemma episode_artifact_ok :
  episode_artifact cls p k artifact w
  = (Ok (default VNone (dc !! artifact_or_key artifact k)), w).
Proof.
  unfold episode_artifact. rewrite Hchild.
  rewrite (bind_ok _ _ _ _ _ (self_state_ok _ _ _ Hnsc)).
  by rewrite (bind_ok _ _ _ _ _ (as_dict_ok _ _ _ Hdc)).
Qed.

Lemma store_episodes_chosen :
  store_episodes cls p k show episodes artifact w
  = match match episodes with
          | VNone => default VNone (dc !! artifact_or_key artifact k)
          | _ => episodes
          end with
    | VNone => (Ok tt, w)
    | eps => (a <- alloc (ODict {["episodes" := eps]}) ;;
              m <- merge (VRef a) show ;;
              store p k m false) w
    end.
Proof.
  unfold store_episodes.
  destruct episodes; try done.
  rewrite (bind_ok _ _ _ _ _ episode_artifact_ok).
  by destruct (default VNone (dc !! artifact_or_key artifact k)).
Qed.
End store_episodes.

Lemma merge_store_new p k eps ls w ns d ds :
  nodes w !! p = Some ns -> heap w !! artifacts ns = Some (ODict d) -> d !! k = None ->
  heap w !! ls = Some (ODict ds) ->
  exists w' l m,
    (a <- alloc (ODict {["episodes" := eps]}) ;;
     m <- merge (VRef a) (VRef ls) ;;
     store p k m false) w = (Ok tt, w')
    /\ retrieve p k false w' = (Ok (VRef l), w')
    /\ heap w' !! l = Some (OList [VRef m])
    /\ heap w' !! m = Some (ODict (<["episodes" := eps]> ds)).
Proof.
  intros Hn Hd Hk Hls.
  pose proof (lookup_lt_Some _ _ _ Hd) as Hlt. pose proof (lookup_lt_Some _ _ _ Hls) as Hlt'.
  set (n := length (heap w)) in *.
  set (da := ({["episodes" := eps]} : gmap string val)).
  set (h2 := heap w ++ [ODict da] ++ [ODict (da ∪ ds)]).
  set (w2 := set_heap h2 w).
  assert (Hrun : (a <- alloc (ODict da) ;; merge (VRef a) (VRef ls)) w
                 = (Ok (VRef (S n)), w2)).
  { unfold bind at 1, alloc. fold n. unfold merge.
    set (w1 := set_heap (heap w ++ [ODict da]) w).
    assert (Ha : heap w1 !! n = Some (ODict da)).
    { simpl. rewrite lookup_app_r by (unfold n; lia). by rewrite Nat.sub_diag. }
    assert (Hb : heap w1 !! ls = Some (ODict ds)).
    { simpl. by rewrite lookup_app_l. }
    rewrite (bind_ok _ _ _ _ _ (as_dict_ok _ _ _ Ha)).
    rewrite (bind_ok _ _ _ _ _ (as_dict_ok _ _ _ Hb)).
    unfold bind, alloc, ret. simpl. rewrite length_app. simpl. fold n.
    replace (n + 1)%nat with (S n) by lia. unfold w2, h2, set_heap. simpl.
    by rewrite <-app_assoc. }
  assert (Hn2 : nodes w2 !! p = Some ns) by done.
  assert (Hd2 : heap w2 !! artifacts ns = Some (ODict d)).
  { simpl. unfold h2. by rewrite lookup_app_l. }
  assert (Hlen : length (heap w2) = S (S n)).
  { simpl. unfold h2. rewrite !length_app. simpl. unfold n. lia. }
  exists (set_heap (<[S (S n) := OList [VRef (S n)]]>
                     (<[artifacts ns := ODict (<[k := VRef (S (S n))]> d)]>
                        (heap w2 ++ [OList []]))) w2), (S (S n)), (S n).
  split; [|split; [|split]].
  - rewrite <-(bind_assoc (alloc (ODict da)) (fun a => merge (VRef a) (VRef ls))
                           (fun m => store p k m false)).
    rewrite (bind_ok _ _ _ _ _ Hrun).
    rewrite (store_create p k w2 ns d Hn2 Hd2 (VRef (S n)) Hk). by rewrite Hlen.
  - eapply retrieve_present; [done| |apply lookup_insert_eq].
    simpl. rewrite list_lookup_insert_ne by (fold n in Hlt; lia).
    apply list_lookup_insert_eq. rewrite length_app. fold (heap w2).
    change (length h2) with (length (heap w2)). rewrite Hlen. fold n in Hlt. lia.
  - simpl. apply list_lookup_insert_eq. rewrite length_insert, length_app.
    change (length h2) with (length (heap w2)). rewrite Hlen. simpl. lia.
  - simpl. rewrite list_lookup_insert_ne by lia.
    rewrite list_lookup_insert_ne by (fold n in Hlt; lia).
    rewrite lookup_app_l by (change (length h2) with (length (heap w2)); lia).
    unfold h2. rewrite lookup_app_r by (unfold n; lia).
    replace (S n - length (heap w))%nat with 1%nat by (unfold n; lia). simpl.
    unfold da. by rewrite insert_union_singleton_l.
Qed.

(** C8, for a node that has a child named [episode]. Without explicit
    episodes, [store_episodes] reads them from the artifacts of that
    child, under [artifact], or under [key] when [artifact] is unset or
    empty.  When there are none, the call changes nothing and raises
    nothing.  Otherwise, and when episodes are given, it builds the
    mapping with the single entry [episodes], merges it into a copy of
    [show] and stores the result under [key] with a multi-valued store:
    on a key not stored before, the sequence under [key] then holds one
    reference, to a new dictionary with the entries of [show] and the
    episodes. *)
Theorem store_episodes_contract cls p k show episodes artifact w c nsc dc :
  child cls "episode" = Some c ->
  nodes w !! child_path p c = Some nsc ->
  heap w !! artifacts nsc = Some (ODict dc) ->
  let eps := match episodes with
             | VNone => default VNone (dc !! artifact_or_key artifact k)
             | _ => episodes
             end in
  episode_artifact cls p k artifact w
  = (Ok (default VNone (dc !! artifact_or_key artifact k)), w)
  /\ (eps = VNone -> store_episodes cls p k show episodes artifact w = (Ok tt, w))
  /\ (eps <> VNone ->
      store_episodes cls p k show episodes artifact w
      = (a <- alloc (ODict {["episodes" := eps]}) ;;
         m <- merge (VRef a) show ;;
         store p k m false) w)
  /\ (eps <> VNone ->
      forall ns d ls ds,
        nodes w !! p = Some ns -> heap w !! artifacts ns = Some (ODict d) ->
        d !! k = None -> show = VRef ls -> heap w !! ls = Some (ODict ds) ->
        exists w' l m,
          store_episodes cls p k show episodes artifact w = (Ok tt, w')
          /\ retrieve p k false w' = (Ok (VRef l), w')
          /\ heap w' !! l = Some (OList [VRef m])
          /\ heap w' !! m = Some (ODict (<["episodes" := eps]> ds))).
Proof.
  intros Hchild Hnsc Hdc eps.
  pose proof (store_episodes_chosen cls p k show episodes artifact w c nsc dc
                Hchild Hnsc Hdc) as Hsel.
  fold eps in Hsel.
  split; [by eapply episode_artifact_ok|]. split; [|split].
  - intros Heps. by rewrite Hsel, Heps.
  - intros Heps. rewrite Hsel. by destruct eps.
  - intros Heps ns d ls ds Hn Hd Hk -> Hls.
    destruct (merge_store_new p k eps ls w ns d ds Hn Hd Hk Hls)
      as (w' & l & m & Hrun & Hret & Hl & Hm).
    exists w', l, m. split; [|done]. rewrite Hsel, <-Hrun. by destruct eps.
Qed.

Lemma store_episodes_contract_witness :
  store_episodes Examples.show_ok [] "collected" (VRef 2%nat) VNone None Examples.w_show
  = (Ok tt, Examples.w_show)
  /\ exists w' l m,
       store_episodes Examples.show_ok [] "watched" (VRef 2%nat) VNone None Examples.w_show
       = (Ok tt, w')
       /\ retrieve [] "watched" false w' = (Ok (VRef l), w')
       /\ heap w' !! l = Some (OList [VRef m])
       /\ heap w' !! m
          = Some (ODict (<["episodes" := VInt 5]> {["title" := VStr "Lost"]})).
Proof.
  split.
  - destruct (store_episodes_contract Examples.show_ok [] "collected" (VRef 2%nat) VNone
                None Examples.w_show Examples.episode (mkNodeState None 0%nat)
                {["watched" := VInt 5]} eq_refl eq_refl eq_refl) as (_ & H & _).
    by apply H.
  - destruct (store_episodes_contract Examples.show_ok [] "watched" (VRef 2%nat) VNone
                None Examples.w_show Examples.episode (mkNodeState None 0%nat)
                {["watched" := VInt 5]} eq_refl eq_refl eq_refl) as (_ & _ & _ & H).
    apply (H ltac:(discriminate) (mkNodeState None 1%nat) ∅ 2%nat
             {["title" := VStr "Lost"]}); reflexivity.
Defined.

(** C8, as stated, fails: on a node without a child named [episode] the
    call does not return, it raises an [AttributeError]. *)
Lemma store_episodes_without_child_raises :
  ~ store_episodes_returns Examples.movie [] "watched" VNone None Examples.w_movie.
Proof. intros [w' H]. vm_compute in H. discriminate H. Qed.

(** ** Running a node *)

Lemma run_unfold cls p args kw w :
  run cls p args kw w
  = (reset cls p (kw_get "artifacts" kw) ;;;
     r <- trigger cls p FuncsNone args kw ;;
     ok <- all_ r ;;
     if negb ok then update_status cls p false None None VNone ;;; ret false
     else
       r' <- trigger_children cls p args kw ;;
       ok' <- all_ r' ;;
       if negb ok' then update_status cls p false None None VNone ;;; ret false
       else update_status cls p true None None VNone ;;; ret true) w.
Proof. by destruct cls. Qed.

Lemma all_frame r w x w' : all_ r w = (x, w') -> w' = w.
Proof.
  unfold all_, bind, get_world, ret, raise. intros H.
  destruct r as [rs|[| | | |l]]; try by injection H as _ <-.
  destruct (heap w !! l) as [[|]|]; by injection H as _ <-.
Qed.

Lemma get_status_ok cls section w sec :
  status_section section w = Some sec ->
  exists w2, get_status cls section w = (Ok (Some (task_or_key cls, sec)), w2)
             /\ nodes w2 = nodes w.
Proof.
  intros Hsec. unfold get_status, status_section in *.
  destruct section; cbn in Hsec.
  1: { destruct (current w) as [tk|] eqn:Hc; [|done]. cbn in Hsec. injection Hsec as <-.
       unfold manager_get_current, manager_get_status, bind, modify, get_world. cbn.
       rewrite ?Hc. cbn.
       destruct (statuses w !! _); cbn; by eexists. }
  all: injection Hsec as <-;
    unfold manager_get_status, bind, modify, get_world; cbn;
    destruct (statuses w !! _); cbn; by eexists.
Qed.

Lemma update_status_inv cls p b end_time start_time' section w w' :
  update_status cls p b end_time start_time' section w = (Ok tt, w') ->
  exists sec s, status_section section w = Some sec /\ start_for start_time' p w = Some s.
Proof.
  intros Hrun.
  destruct (status_section section w) as [sec|] eqn:Hsec; cycle 1.
  { unfold status_section in Hsec. destruct section; try done.
    destruct (current w) eqn:Hc; [done|].
    destruct (update_status_idle cls p b end_time start_time' w Hc) as (w2 & H2 & _).
    rewrite H2 in Hrun. discriminate Hrun. }
  destruct (start_for start_time' p w) as [s|] eqn:Hs; [by eexists _, _|].
  exfalso. unfold update_status in Hrun.
  set (w1 := match end_time with Some _ => w | None => set_ticks (S (ticks w)) w end).
  assert (H1 : match end_time with Some e => ret e | None => utcnow end w
               = (Ok (end_for end_time w), w1)).
  { unfold w1. by destruct end_time. }
  assert (Hsec1 : status_section section w1 = Some sec).
  { unfold w1. by destruct end_time. }
  assert (Hn1 : nodes w1 = nodes w).
  { unfold w1. by destruct end_time. }
  rewrite (bind_ok _ _ _ _ _ H1) in Hrun.
  destruct (get_status_ok cls section w1 sec Hsec1) as (w2 & Hget & Hn2).
  rewrite (bind_ok _ _ _ _ _ Hget) in Hrun.
  unfold start_for in Hs. destruct start_time' as [s'|]; [done|].
  unfold bind at 1 in Hrun. unfold bind at 1, self_state in Hrun.
  rewrite Hn2, Hn1 in Hrun.
  destruct (nodes w !! p) as [ns|]; [|discriminate Hrun]. cbn in Hs.
  unfold ret at 1 in Hrun. rewrite Hs in Hrun.
  unfold status_update, status_fields, bind in Hrun.
  destruct (statuses w2 !! _); discriminate Hrun.
Qed.

(** A status update that [run] makes and that returns: its four events,
    and nothing else that the rest of the engine reads. *)
Lemma update_status_run cls p b w w' :
  update_status cls p b None None VNone w = (Ok tt, w') ->
  exists sec kk s,
    trace w' = trace w ++ status_events cls sec kk b s (clock w (ticks w))
    /\ statuses w' !! (task_or_key cls, sec)
       = Some (mkSyncStatus kk (Some b) (Some s) (Some (clock w (ticks w) - s)))
    /\ heap w' = heap w /\ nodes w' = nodes w.
Proof.
  intros Hrun. destruct (update_status_inv _ _ _ _ _ _ _ _ Hrun) as (sec & s & Hsec & Hs).
  destruct (update_status_ok cls p b None None VNone w sec s Hsec Hs)
    as (w2 & kk & Hrun2 & Ht & Hst & _ & Hh & Hn & _).
  rewrite Hrun in Hrun2. injection Hrun2 as <-.
  exists sec, kk, s. by rewrite Ht.
Qed.

Lemma for_each_frame {X} (P : world -> world -> Prop) (f : X -> M unit) xs :
  (forall w, P w w) -> (forall w1 w2 w3, P w1 w2 -> P w2 w3 -> P w1 w3) ->
  Forall (fun x => forall w r w', f x w = (r, w') -> P w w') xs ->
  forall w r w', for_each f xs w = (r, w') -> P w w'.
Proof.
  intros Hrefl Htrans. induction 1 as [|x xs Hx _ IH]; intros w r w' Hrun.
  - injection Hrun as _ <-. apply Hrefl.
  - simpl in Hrun. unfold bind in Hrun. destruct (f x w) as [[[]|e|] w1] eqn:Hf.
    + eapply Htrans; [by eapply Hx|by eapply IH].
    + injection Hrun as _ <-. by eapply Hx.
    + injection Hrun as _ <-. by eapply Hx.
Qed.

(** Resetting talks neither to the Manager nor to the log. *)
Lemma reset_silent cls : forall p A w r w',
  reset cls p A w = (r, w') -> trace w' = trace w /\ statuses w' = statuses w.
Proof.
  induction cls as [k t a th hs cs IH] using SyncBase_tree_ind. intros p A w r w' Hrun.
  simpl in Hrun. unfold bind at 1, utcnow in Hrun. unfold bind at 1, set_start_time, modify in Hrun.
  unfold bind at 1 in Hrun.
  set (w0 := set_nodes _ _) in Hrun.
  assert (Hc : forall x w1, copy_or_empty A w0 = (x, w1) ->
                 trace w1 = trace w /\ statuses w1 = statuses w).
  { unfold copy_or_empty, bind, get_world, ret. intros x w1 Hx.
    destruct (truthy (heap w0) A).
    - destruct (as_dict A w0) as [[d|e|] w2] eqn:Hd.
      + unfold as_dict in Hd. destruct A as [| | | |l]; try discriminate Hd.
        destruct (heap w0 !! l) as [[|]|]; try discriminate Hd.
        injection Hd as _ <-. by injection Hx as _ <-.
      + unfold as_dict in Hd. injection Hx as _ <-.
        destruct A as [| | | |l]; try by injection Hd as _ <-.
        destruct (heap w0 !! l) as [[|]|]; by injection Hd as _ <-.
      + unfold as_dict in Hd. destruct A as [| | | |l]; try discriminate Hd.
        destruct (heap w0 !! l) as [[|]|]; discriminate Hd.
    - by injection Hx as _ <-. }
  destruct (copy_or_empty A w0) as [[l|e|] w1] eqn:Hcopy;
    destruct (Hc _ _ eq_refl) as [Ht1 Hs1].
  - unfold bind at 1, set_node, modify in Hrun.
    apply (for_each_frame (fun w w' => trace w' = trace w /\ statuses w' = statuses w))
      in Hrun.
    + destruct Hrun as [-> ->]. by rewrite <-Ht1, <-Hs1.
    + done.
    + intros ? ? ? [-> ->] [-> ->]. done.
    + apply Forall_forall. intros c Hcin x y z Hxyz. rewrite Forall_forall in IH.
      by eapply IH.
  - by injection Hrun as _ <-.
  - by injection Hrun as _ <-.
Qed.

Lemma trigger_sequential_raises cls p args kw name h hs w e w' :
  threaded cls = false -> handlers cls = (name, h) :: hs ->
  h p args (snd (kw_pop "single" kw)) w = (Raise e, w') ->
  trigger cls p FuncsNone args kw w = (Raise e, w').
Proof.
  intros Hth Hh Hraise. unfold trigger.
  destruct (kw_pop "single" kw) as [single kw'] eqn:Hpop. simpl in Hraise.
  rewrite Hh.
  change (omap (resolve cls p) (map fst ((name, h) :: hs)))
    with (match resolve cls p name with
          | Some y => y :: omap (resolve cls p) (map fst hs)
          | None => omap (resolve cls p) (map fst hs)
          end).
  unfold resolve at 1. rewrite Hh. simpl. rewrite String.eqb_refl. simpl.
  unfold trigger_run. rewrite Hth. simpl. unfold bind at 1. unfold bind at 1.
  by rewrite Hraise.
Qed.

(** In a sequential batch an exception of any handler is the outcome of
    the whole call, once the handlers before it have returned. *)
Lemma trigger_sequential_raises_at cls p args kw hs1 name h hs2 w rs w1 e w2 :
  threaded cls = false -> NoDup (map fst (handlers cls)) ->
  handlers cls = hs1 ++ (name, h) :: hs2 ->
  call_each (map (bound p) hs1) args (snd (kw_pop "single" kw)) w = (Ok rs, w1) ->
  h p args (snd (kw_pop "single" kw)) w1 = (Raise e, w2) ->
  trigger cls p FuncsNone args kw w = (Raise e, w2).
Proof.
  intros Hth Hnd Hh Hcall Hraise. unfold trigger.
  destruct (kw_pop "single" kw) as [single kw'] eqn:Hpop. simpl in Hcall, Hraise.
  rewrite (omap_resolve_bound cls p Hnd), Hh, map_app.
  rewrite trigger_run_sequential by done. unfold bind at 1.
  rewrite call_each_app, (bind_ok _ _ _ _ _ Hcall). simpl. unfold bind.
  by rewrite Hraise.
Qed.

(** The functions [trigger_children] dispatches are the [run] methods of
    the children with [auto_run], in the order of the children. *)
Lemma child_funcs_filter p cs :
  child_funcs run p cs = map (child_run p) (filter (fun c => auto_run c) cs).
Proof.
  induction cs as [|c cs IH]; [done|]. unfold child_funcs in *.
  change (omap ?f (c :: cs)) with (match f c with
                                   | Some y => y :: omap f cs
                                   | None => omap f cs
                                   end).
  cbv beta. destruct (auto_run c) eqn:Hc.
  - rewrite filter_cons_True by (by rewrite Hc). simpl. by rewrite IH.
  - rewrite filter_cons_False by (rewrite Hc; by intros []). apply IH.
Qed.

Lemma trigger_children_unfold cls p args kw w :
  trigger_children cls p args kw w
  = trigger_run cls (map (child_run p) (filter (fun c => auto_run c) (children cls)))
      (fst (kw_pop "single" kw)) args (snd (kw_pop "single" kw)) w.
Proof.
  unfold trigger_children, trigger_children_with.
  destruct (kw_pop "single" kw) as [single kw']. by rewrite child_funcs_filter.
Qed.

Lemma call_each_children p cs args kw : forall w,
  call_each (map (child_run p) cs) args kw w
  = (bs <- run_in_turn cs p args kw ;; ret (VBool <$> bs)) w.
Proof.
  induction cs as [|c cs IH]; intros w; [done|].
  change (call_each (map (child_run p) (c :: cs)) args kw w)
    with ((r <- (b <- run c (child_path p c) args kw ;; ret (VBool b)) ;;
           rs <- call_each (map (child_run p) cs) args kw ;; ret (r :: rs)) w).
  change (run_in_turn (c :: cs) p args kw)
    with (b <- run c (child_path p c) args kw ;;
          bs <- run_in_turn cs p args kw ;; ret (b :: bs)).
  unfold bind at 1 2 4 5.
  destruct (run c (child_path p c) args kw w) as [[b|e|] w1]; try reflexivity.
  unfold ret at 1. unfold bind at 1. rewrite IH. unfold bind.
  by destruct (run_in_turn cs p args kw w1) as [[bs|e|] w2].
Qed.

Lemma run_in_turn_length p args kw : forall cs w bs w',
  run_in_turn cs p args kw w = (Ok bs, w') -> length bs = length cs.
Proof.
  induction cs as [|c cs IH]; intros w bs w' Hrun.
  - by injection Hrun as <- _.
  - change (run_in_turn (c :: cs) p args kw)
      with (b <- run c (child_path p c) args kw ;;
            bs <- run_in_turn cs p args kw ;; ret (b :: bs)) in Hrun.
    unfold bind in Hrun.
    destruct (run c (child_path p c) args kw w) as [[b|e|] w1]; try discriminate Hrun.
    destruct (run_in_turn cs p args kw w1) as [[bs1|e|] w2] eqn:Hrest;
      try discriminate Hrun.
    injection Hrun as <- _. simpl. f_equal. by eapply IH.
Qed.

Lemma all_verdicts bs w : all_ (Results (VBool <$> bs)) w = (Ok (forallb id bs), w).
Proof.
  unfold all_, bind, get_world, ret. do 2 f_equal.
  induction bs as [|b bs IH]; [done|]. destruct b; [exact IH|done].
Qed.

(** What a call of [run] that returns a verdict went through. *)
Lemma run_inv cls p args kw w b w' :
  run cls p args kw w = (Ok b, w') ->
  exists w1 r w2 w3,
    reset cls p (kw_get "artifacts" kw) w = (Ok tt, w1)
    /\ trigger cls p FuncsNone args kw w1 = (Ok r, w2)
    /\ ((all_ r w2 = (Ok false, w2) /\ w3 = w2 /\ b = false)
        \/ (all_ r w2 = (Ok true, w2)
            /\ exists r', trigger_children cls p args kw w2 = (Ok r', w3)
                          /\ all_ r' w3 = (Ok b, w3)))
    /\ update_status cls p b None None VNone w3 = (Ok tt, w').
Proof.
  rewrite run_unfold. intros Hrun. unfold bind at 1 in Hrun.
  destruct (reset cls p _ w) as [[[]|e|] w1] eqn:Hreset; try discriminate Hrun.
  unfold bind at 1 in Hrun.
  destruct (trigger cls p FuncsNone args kw w1) as [[r|e|] w2] eqn:Htr; try discriminate Hrun.
  unfold bind at 1 in Hrun.
  destruct (all_ r w2) as [[ok|e|] w2'] eqn:Hall; try discriminate Hrun.
  pose proof (all_frame _ _ _ _ Hall) as ->.
  destruct ok; simpl in Hrun.
  - unfold bind at 1 in Hrun.
    destruct (trigger_children cls p args kw w2) as [[r'|e|] w3] eqn:Htc;
      try discriminate Hrun.
    unfold bind at 1 in Hrun.
    destruct (all_ r' w3) as [[ok'|e|] w3'] eqn:Hall'; try discriminate Hrun.
    pose proof (all_frame _ _ _ _ Hall') as ->.
    exists w1, r, w2, w3. split; [done|]. split; [done|].
    destruct ok'; simpl in Hrun; unfold bind in Hrun;
      destruct (update_status cls p _ None None VNone w3) as [[[]|e|] w4] eqn:Hup;
      try discriminate Hrun; injection Hrun as <- <-;
      (split; [right; split; [done|]; by exists r'|done]).
  - unfold bind in Hrun.
    destruct (update_status cls p false None None VNone w2) as [[[]|e|] w4] eqn:Hup;
      try discriminate Hrun. injection Hrun as <- <-.
    exists w1, r, w2, w2. split; [done|]. split; [done|]. split; [by left|done].
Qed.

(** C1, as the code has it. [run] first resets the node, and with it
    every child; then it triggers the node's own handlers.  If the
    conjunction of their results is not truthy, what remains of the run
    is [update_status(False)] and the verdict [False]: no child is run,
    and a run that returns has added one status update carrying the
    failure to what the handlers left, and nothing else.  If the
    handlers succeed, the children with [auto_run] are triggered, and
    what remains is one [update_status] with the conjunction of their
    results, which is also the verdict.  Triggering the children is one
    batch of the [run] methods of the children with [auto_run], in the
    order of the children, with the keywords without [single]; when
    these runs return their verdicts one after the other, and the batch
    hands back a result for each of them, the results are these
    verdicts, one for every child with [auto_run], in the state the last
    run left, and the status recorded and the verdict of the node are
    their conjunction. *)
Theorem run_protocol cls p args kw w w1 r w2 :
  reset cls p (kw_get "artifacts" kw) w = (Ok tt, w1) ->
  trigger cls p FuncsNone args kw w1 = (Ok r, w2) ->
  (all_ r w2 = (Ok false, w2) ->
     run cls p args kw w
     = (update_status cls p false None None VNone ;;; ret false) w2
     /\ forall b w', run cls p args kw w = (Ok b, w') ->
          b = false
          /\ exists sec kk s,
               trace w' = trace w2 ++ status_events cls sec kk false s (clock w2 (ticks w2))
               /\ heap w' = heap w2 /\ nodes w' = nodes w2)
  /\ (all_ r w2 = (Ok true, w2) ->
      forall r' w3 ok',
        trigger_children cls p args kw w2 = (Ok r', w3) ->
        all_ r' w3 = (Ok ok', w3) ->
        run cls p args kw w
        = (update_status cls p ok' None None VNone ;;; ret ok') w3
        /\ forall b w', run cls p args kw w = (Ok b, w') ->
             b = ok'
             /\ exists sec kk s,
                  trace w' = trace w3 ++ status_events cls sec kk ok' s (clock w3 (ticks w3))
                  /\ heap w' = heap w3 /\ nodes w' = nodes w3)
  /\ trigger_children cls p args kw w2
     = trigger_run cls (map (child_run p) (filter (fun c => auto_run c) (children cls)))
         (fst (kw_pop "single" kw)) args (snd (kw_pop "single" kw)) w2
  /\ (all_ r w2 = (Ok true, w2) ->
      forall bs w3,
        run_in_turn (filter (fun c => auto_run c) (children cls)) p args
          (snd (kw_pop "single" kw)) w2 = (Ok bs, w3) ->
        whole_batch cls (fst (kw_pop "single" kw)) w2 w3 ->
        trigger_children cls p args kw w2 = (Ok (Results (VBool <$> bs)), w3)
        /\ length bs = length (filter (fun c => auto_run c) (children cls))
        /\ run cls p args kw w
           = (update_status cls p (forallb id bs) None None VNone ;;;
              ret (forallb id bs)) w3).
Proof.
  intros Hreset Htr. split; [|split; [|split; [apply trigger_children_unfold|]]].
  - intros Hall.
    assert (Heq : run cls p args kw w
                  = (update_status cls p false None None VNone ;;; ret false) w2).
    { rewrite run_unfold, (bind_ok _ _ _ _ _ Hreset), (bind_ok _ _ _ _ _ Htr).
      by rewrite (bind_ok _ _ _ _ _ Hall). }
    split; [done|]. intros b w' Hrun. rewrite Heq in Hrun. unfold bind in Hrun.
    destruct (update_status cls p false None None VNone w2) as [[[]|e|] w4] eqn:Hup;
      try discriminate Hrun. injection Hrun as <- <-. split; [done|].
    destruct (update_status_run _ _ _ _ _ Hup) as (sec & kk & s & Ht & _ & Hh & Hn).
    by exists sec, kk, s.
  - intros Hall r' w3 ok' Htc Hall'.
    assert (Heq : run cls p args kw w
                  = (update_status cls p ok' None None VNone ;;; ret ok') w3).
    { rewrite run_unfold, (bind_ok _ _ _ _ _ Hreset), (bind_ok _ _ _ _ _ Htr).
      rewrite (bind_ok _ _ _ _ _ Hall). simpl.
      rewrite (bind_ok _ _ _ _ _ Htc), (bind_ok _ _ _ _ _ Hall'). by destruct ok'. }
    split; [done|]. intros b w' Hrun. rewrite Heq in Hrun. unfold bind in Hrun.
    destruct (update_status cls p ok' None None VNone w3) as [[[]|e|] w4] eqn:Hup;
      try discriminate Hrun. injection Hrun as <- <-. split; [done|].
    destruct (update_status_run _ _ _ _ _ Hup) as (sec & kk & s & Ht & _ & Hh & Hn).
    by exists sec, kk, s.
  - intros Hall bs w3 Hturn Hbatch.
    assert (Hcall : call_each
                      (map (child_run p) (filter (fun c => auto_run c) (children cls)))
                      args (snd (kw_pop "single" kw)) w2
                    = (Ok (VBool <$> bs), w3)).
    { by rewrite call_each_children, (bind_ok _ _ _ _ _ Hturn). }
    assert (Htc : trigger_children cls p args kw w2 = (Ok (Results (VBool <$> bs)), w3)).
    { rewrite trigger_children_unfold. by apply trigger_run_whole_batch. }
    split; [done|]. split; [by eapply run_in_turn_length|].
    rewrite run_unfold, (bind_ok _ _ _ _ _ Hreset), (bind_ok _ _ _ _ _ Htr).
    rewrite (bind_ok _ _ _ _ _ Hall). simpl.
    rewrite (bind_ok _ _ _ _ _ Htc), (bind_ok _ _ _ _ _ (all_verdicts bs w3)).
    by destruct (forallb id bs).
Qed.

Lemma run_protocol_witness :
  run Examples.show_bad [] [] [] Examples.w_bad
  = (update_status Examples.show_bad [] false None None VNone ;;; ret false)
      (snd (trigger Examples.show_bad [] FuncsNone [] []
              (snd (reset Examples.show_bad [] VNone Examples.w_bad))))
  /\ trigger_children Examples.show_ok [] [] []
       (snd (reset Examples.show_ok [] VNone Examples.w0))
     = (Ok (Results [VBool true]),
        snd (run Examples.episode ["episode"] [] []
               (snd (reset Examples.show_ok [] VNone Examples.w0))))
  /\ run Examples.show_ok [] [] [] Examples.w0
     = (update_status Examples.show_ok [] true None None VNone ;;; ret true)
         (snd (run Examples.episode ["episode"] [] []
                 (snd (reset Examples.show_ok [] VNone Examples.w0))))
  /\ trace (snd (run Examples.episode ["episode"] [] []
                   (snd (reset Examples.show_ok [] VNone Examples.w0))))
     = status_events Examples.episode (VStr "1") "episode" true 102 103.
Proof.
  split; [|split; [|split]].
  - refine (proj1 (proj1 (run_protocol Examples.show_bad [] [] [] Examples.w_bad
                            (snd (reset Examples.show_bad [] VNone Examples.w_bad))
                            (Results [VBool false])
                            (snd (trigger Examples.show_bad [] FuncsNone [] []
                                    (snd (reset Examples.show_bad [] VNone Examples.w_bad))))
                            _ _) _)); vm_compute; reflexivity.
  - destruct (run_protocol Examples.show_ok [] [] [] Examples.w0
                (snd (reset Examples.show_ok [] VNone Examples.w0))
                (Results [VBool true])
                (snd (reset Examples.show_ok [] VNone Examples.w0)))
      as (_ & _ & _ & Hchildren); [vm_compute; reflexivity..|].
    destruct (Hchildren eq_refl [true]
                (snd (run Examples.episode ["episode"] [] []
                        (snd (reset Examples.show_ok [] VNone Examples.w0)))))
      as (Htc & _); [vm_compute; reflexivity..|].
    exact Htc.
  - destruct (run_protocol Examples.show_ok [] [] [] Examples.w0
                (snd (reset Examples.show_ok [] VNone Examples.w0))
                (Results [VBool true])
                (snd (reset Examples.show_ok [] VNone Examples.w0)))
      as (_ & _ & _ & Hchildren); [vm_compute; reflexivity..|].
    destruct (Hchildren eq_refl [true]
                (snd (run Examples.episode ["episode"] [] []
                        (snd (reset Examples.show_ok [] VNone Examples.w0)))))
      as (_ & _ & Hrun); [vm_compute; reflexivity..|].
    exact Hrun.
  - vm_compute. reflexivity.
Defined.

(** C1, as stated, fails: the handler of this node returns [False], the
    run returns [False], and the child has been reset all the same: it
    has a start time and new artifacts. *)
Lemma run_failure_resets_children :
  ~ failure_spares_children Examples.show_bad [] [] [] Examples.w_bad.
Proof.
  intros H.
  set (w1 := snd (reset Examples.show_bad [] (kw_get "artifacts" []) Examples.w_bad)).
  set (w2 := snd (trigger Examples.show_bad [] FuncsNone [] [] w1)).
  set (w' := snd (run Examples.show_bad [] [] [] Examples.w_bad)).
  assert (E1 : reset Examples.show_bad [] (kw_get "artifacts" []) Examples.w_bad
               = (Ok tt, w1)) by (vm_compute; reflexivity).
  assert (E2 : trigger Examples.show_bad [] FuncsNone [] [] w1
               = (Ok (Results [VBool false]), w2)) by (vm_compute; reflexivity).
  assert (E3 : all_ (Results [VBool false]) w2 = (Ok false, w2))
    by (vm_compute; reflexivity).
  assert (E4 : run Examples.show_bad [] [] [] Examples.w_bad = (Ok false, w'))
    by (vm_compute; reflexivity).
  specialize (H w1 _ w2 w' E1 E2 E3 E4 Examples.episode).
  assert (Hin : Examples.episode ∈ children Examples.show_bad) by (simpl; left).
  apply H in Hin. vm_compute in Hin. discriminate Hin.
Qed.

(** C3, as the code has it. A call of [run] that returns a verdict has
    reset the node, triggered its handlers and, when they succeeded, its
    children, and has ended with one status update carrying the verdict:
    the reset adds no event, and the update adds one Manager update and
    one informational log line at the end of the trace.  An exception
    raised while the handlers are triggered escapes [run], with no
    status update made; on a node that is not threaded, an exception of
    any handler is such an exception: once the handlers listed before it
    have returned, what it raises is what triggering the handlers
    raises, and what [run] raises, in the state the handler left. *)
Theorem run_records_once cls p args kw w :
  (forall b w', run cls p args kw w = (Ok b, w') ->
     exists w1 r w2 w3 sec kk s,
       reset cls p (kw_get "artifacts" kw) w = (Ok tt, w1)
       /\ trace w1 = trace w
       /\ trigger cls p FuncsNone args kw w1 = (Ok r, w2)
       /\ (w3 = w2 \/ exists r', trigger_children cls p args kw w2 = (Ok r', w3))
       /\ update_status cls p b None None VNone w3 = (Ok tt, w')
       /\ trace w' = trace w3 ++ status_events cls sec kk b s (clock w3 (ticks w3))
       /\ statuses w' !! (task_or_key cls, sec)
          = Some (mkSyncStatus kk (Some b) (Some s) (Some (clock w3 (ticks w3) - s))))
  /\ (forall w1 e w2,
        reset cls p (kw_get "artifacts" kw) w = (Ok tt, w1) ->
        trigger cls p FuncsNone args kw w1 = (Raise e, w2) ->
        run cls p args kw w = (Raise e, w2))
  /\ (forall name h hs w1 e w2,
        threaded cls = false -> handlers cls = (name, h) :: hs ->
        h p args (snd (kw_pop "single" kw)) w1 = (Raise e, w2) ->
        trigger cls p FuncsNone args kw w1 = (Raise e, w2))
  /\ (forall hs1 name h hs2 w1 rs w1' e w2,
        threaded cls = false -> NoDup (map fst (handlers cls)) ->
        handlers cls = hs1 ++ (name, h) :: hs2 ->
        call_each (map (bound p) hs1) args (snd (kw_pop "single" kw)) w1 = (Ok rs, w1') ->
        h p args (snd (kw_pop "single" kw)) w1' = (Raise e, w2) ->
        trigger cls p FuncsNone args kw w1 = (Raise e, w2)
        /\ (reset cls p (kw_get "artifacts" kw) w = (Ok tt, w1) ->
            run cls p args kw w = (Raise e, w2))).
Proof.
  split; [|split; [|split]].
  - intros b w' Hrun.
    destruct (run_inv _ _ _ _ _ _ _ Hrun) as (w1 & r & w2 & w3 & Hreset & Htr & Hmid & Hup).
    destruct (update_status_run _ _ _ _ _ Hup) as (sec & kk & s & Ht & Hst & _).
    exists w1, r, w2, w3, sec, kk, s. split; [done|].
    split; [by eapply reset_silent|]. split; [done|]. split; [|done].
    destruct Hmid as [(_ & -> & _)|(_ & r' & Htc & _)]; [by left|right; by exists r'].
  - intros w1 e w2 Hreset Htr.
    by rewrite run_unfold, (bind_ok _ _ _ _ _ Hreset), (bind_raise _ _ _ _ _ Htr).
  - intros name h hs w1 e w2. apply trigger_sequential_raises.
  - intros hs1 name h hs2 w1 rs w1' e w2 Hth Hnd Hh Hcall Hraise.
    assert (Htr : trigger cls p FuncsNone args kw w1 = (Raise e, w2))
      by (by eapply trigger_sequential_raises_at).
    split; [done|]. intros Hreset.
    by rewrite run_unfold, (bind_ok _ _ _ _ _ Hreset), (bind_raise _ _ _ _ _ Htr).
Qed.

Lemma run_records_once_witness :
  (exists w',
     run Examples.show_raising [] [] [] Examples.w_raising = (Raise (UserError "boom"), w')
     /\ trace w' = [])
  /\ run Examples.show_late_raise [] [] [] Examples.w0
     = (Raise (UserError "boom"), snd (reset Examples.show_late_raise [] VNone Examples.w0))
  /\ trace (snd (reset Examples.show_late_raise [] VNone Examples.w0)) = [].
Proof.
  split; [|split].
  - destruct (run_records_once Examples.show_raising [] [] [] Examples.w_raising)
      as (_ & Hescapes & Hfirst & _).
    eexists. split.
    + apply (Hescapes (snd (reset Examples.show_raising [] VNone Examples.w_raising))).
      * vm_compute. reflexivity.
      * apply (Hfirst "watched" (Examples.raising_handler (UserError "boom"))
                 [] _ _ _ eq_refl eq_refl).
        reflexivity.
    + reflexivity.
  - destruct (run_records_once Examples.show_late_raise [] [] [] Examples.w0)
      as (_ & _ & _ & Hany).
    assert (Hnd : NoDup (map fst (handlers Examples.show_late_raise))).
    { apply (bool_decide_unpack (NoDup (map fst (handlers Examples.show_late_raise)))).
      vm_compute. reflexivity. }
    destruct (Hany [("collected", Examples.const_handler (VBool true))] "watched"
                (Examples.raising_handler (UserError "boom")) []
                (snd (reset Examples.show_late_raise [] VNone Examples.w0))
                [VBool true]
                (snd (reset Examples.show_late_raise [] VNone Examples.w0))
                (UserError "boom")
                (snd (reset Examples.show_late_raise [] VNone Examples.w0))
                eq_refl Hnd eq_refl eq_refl eq_refl)
      as [_ Hrun].
    apply Hrun. vm_compute. reflexivity.
  - reflexivity.
Defined.

(** C3, as stated, fails: the handler of this sequential node raises,
    the exception leaves [run], and no status update is made. *)
Lemma run_lets_handler_exception_escape :
  ~ run_contained Examples.show_raising [] [] [] Examples.w_raising.
Proof.
  intros (b & w' & Hrun & _). vm_compute in Hrun. discriminate Hrun.
Qed.

(** ** The engine on small batches *)

(** Sequential results come back in invocation order, and their
    conjunction is the verdict of the batch. *)
Example trigger_run_sequential_order :
  (r <- trigger_run Examples.show_ok
          [("a", Examples.const_handler (VBool true) []);
           ("b", Examples.const_handler (VBool false) []);
           ("c", Examples.const_handler (VBool true) [])] (VBool false) [] [] ;;
   ok <- all_ r ;; ret (r, ok)) Examples.w0
  = (Ok (Results [VBool true; VBool false; VBool true], false), Examples.w0).
Proof. reflexivity. Qed.

(** With [single] set, a sequential batch hands back the first result
    itself. *)
Example trigger_run_sequential_single :
  trigger_run Examples.show_ok [("a", Examples.const_handler (VInt 7) [])]
    (VBool true) [] [] Examples.w0
  = (Ok (First (VInt 7)), Examples.w0).
Proof. reflexivity. Qed.

(** A threaded batch of three in which one function raises: two
    results, a warning in the log, and a batch that counts as a
    success. *)
Example trigger_run_threaded_drops_failure :
  (r <- trigger_run Examples.threaded_show Examples.batch3 (VBool true) [] [] ;;
   ok <- all_ r ;; ret (r, ok)) Examples.w0
  = (Ok (Results [VBool true; VBool true], true),
     emit (EvLogWarn (UserError "boom")) Examples.w0).
Proof. reflexivity. Qed.

(** A threaded batch in which a function raises [SystemExit]: its
    worker ends with the permit taken, and the caller waits for that
    permit without end. *)
Example trigger_run_threaded_worker_dies :
  fst (trigger_run Examples.threaded_show
         [("a", Examples.const_handler (VBool true) []);
          ("b", Examples.raising_handler SystemExit [])] (VBool false) [] [] Examples.w0)
  = Hang.
Proof. reflexivity. Qed.

(** A run of a tree of two nodes: the child records its status before
    the parent does. *)
Example run_show_ok :
  let out := run Examples.show_ok [] [] [] Examples.w0 in
  fst out = Ok true
  /\ trace (snd out)
     = [EvGetCurrent; EvGetStatus "episode" (VStr "1");
        EvStatusUpdate "episode" (VStr "1") true 102 103;
        EvLogInfo "episode" (Some true) (Some 102) (Some 1);
        EvGetCurrent; EvGetStatus "show" (VStr "1");
        EvStatusUpdate "show" (VStr "1") true 100 104;
        EvLogInfo "show" (Some true) (Some 100) (Some 4)].
Proof. split; vm_compute; reflexivity. Qed.

(** The copy made by [reset] is shallow: after a reset with a mapping
    that holds a list, a multi-valued store on the node appends to that
    very list, which the mapping and the child still refer to. *)
Example reset_shares_leaves :
  let out := (reset Examples.show_ok [] (VRef 1%nat) ;;;
              store [] "k" (VInt 2) false ;;;
              retrieve ["episode"] "k" false) Examples.w_leaf in
  fst out = Ok (VRef 0%nat)
  /\ heap (snd out) !! 0%nat = Some (OList [VInt 1; VInt 2])
  /\ heap (snd out) !! 1%nat = Some (ODict {["k" := VRef 0%nat]}).
Proof. repeat split; vm_compute; reflexivity. Qed.

(** * Further properties of the artifact store *)

(** X1. A store that does not return normally changes nothing: whenever
    [store] raises, the world is the one it was called in. *)
Theorem store_raises_unchanged p k v single w e w' :
  store p k v single w = (Raise e, w') -> w' = w.
Proof.
  intros Hrun.
  destruct (nodes w !! p) as [ns|] eqn:Hn; cycle 1.
  { unfold store, bind, self_state in Hrun. rewrite Hn in Hrun. by injection Hrun as _ <-. }
  destruct (heap w !! artifacts ns) as [[xs|d]|] eqn:Hd.
  1,3: unfold store in Hrun;
       rewrite (bind_ok _ _ _ _ _ (self_state_ok _ _ _ Hn)) in Hrun;
       destruct single; unfold dict_setitem, bind, as_dict in Hrun;
       rewrite Hd in Hrun; by injection Hrun as _ <-.
  destruct single.
  { rewrite (store_single p k w ns d Hn Hd) in Hrun. discriminate Hrun. }
  destruct (d !! k) as [u|] eqn:Hk.
  - unfold store in Hrun.
    rewrite (bind_ok _ _ _ _ _ (self_state_ok _ _ _ Hn)) in Hrun.
    rewrite (bind_ok _ _ _ _ _ (as_dict_ok _ _ _ Hd)), Hk in Hrun.
    unfold ret at 1 in Hrun. unfold bind at 1 in Hrun.
    rewrite (bind_ok _ _ _ _ _ (as_dict_ok _ _ _ Hd)), Hk in Hrun.
    unfold list_append in Hrun. destruct u as [| | | |l]; try by injection Hrun as _ <-.
    destruct (heap w !! l) as [[xs|]|] eqn:Hl; try by injection Hrun as _ <-.
    discriminate Hrun.
  - rewrite (store_create p k w ns d Hn Hd v Hk) in Hrun. discriminate Hrun.
Qed.

Lemma store_raises_unchanged_witness :
  snd (store [] "k" (VInt 1) false
         (snd (store [] "k" (VInt 0) true Examples.w_movie)))
  = snd (store [] "k" (VInt 0) true Examples.w_movie).
Proof.
  apply (store_raises_unchanged [] "k" (VInt 1) false
           (snd (store [] "k" (VInt 0) true Examples.w_movie)) AttributeError).
  vm_compute. reflexivity.
Defined.

(** X2. The two modes do not mix: after a single-valued store of a value
    that is not a container, a multi-valued retrieve returns that value
    itself, not a sequence, and a multi-valued store under the same key
    raises an [AttributeError] and stores nothing. *)
Theorem store_single_then_multi p k v v' w ns d :
  nodes w !! p = Some ns -> heap w !! artifacts ns = Some (ODict d) ->
  (forall l, v <> VRef l) ->
  exists w1,
    store p k v true w = (Ok tt, w1)
    /\ retrieve p k false w1 = (Ok v, w1)
    /\ store p k v' false w1 = (Raise AttributeError, w1).
Proof.
  intros Hn Hd Hv. pose proof (lookup_lt_Some _ _ _ Hd) as Hlt.
  rewrite (store_single p k w ns d Hn Hd v). eexists. split; [done|].
  set (w1 := set_heap _ w).
  assert (H1 : heap w1 !! artifacts ns = Some (ODict (<[k := v]> d))).
  { simpl. by apply list_lookup_insert_eq. }
  assert (Hn1 : nodes w1 !! p = Some ns) by done.
  split.
  - apply (retrieve_present p k w1 ns _ Hn1 H1). apply lookup_insert_eq.
  - unfold store. rewrite (bind_ok _ _ _ _ _ (self_state_ok _ _ _ Hn1)).
    rewrite (bind_ok _ _ _ _ _ (as_dict_ok _ _ _ H1)), lookup_insert_eq.
    unfold ret at 1. unfold bind at 1.
    rewrite (bind_ok _ _ _ _ _ (as_dict_ok _ _ _ H1)), lookup_insert_eq.
    destruct v; try done. by destruct (Hv l).
Qed.

Lemma store_single_then_multi_witness :
  exists w1,
    store [] "k" (VInt 0) true Examples.w_movie = (Ok tt, w1)
    /\ retrieve [] "k" false w1 = (Ok (VInt 0), w1)
    /\ store [] "k" (VInt 1) false w1 = (Raise AttributeError, w1).
Proof.
  apply (store_single_then_multi [] "k" (VInt 0) (VInt 1) Examples.w_movie
           (mkNodeState None 0%nat) ∅); [reflexivity | reflexivity | discriminate].
Defined.

(** X3. Retrieving does not store: a multi-valued retrieve of a key that
    is absent returns a list object that did not exist before and leaves
    the artifacts as they were, so the key is still absent for a
    single-valued retrieve, and a second multi-valued retrieve returns
    another, distinct list. *)
Theorem retrieve_default_not_stored p k w ns d :
  nodes w !! p = Some ns -> heap w !! artifacts ns = Some (ODict d) -> d !! k = None ->
  exists l w1,
    retrieve p k false w = (Ok (VRef l), w1)
    /\ heap w !! l = None
    /\ nodes w1 = nodes w
    /\ heap w1 !! artifacts ns = Some (ODict d)
    /\ retrieve p k true w1 = (Ok VNone, w1)
    /\ exists l' w2, retrieve p k false w1 = (Ok (VRef l'), w2) /\ l' <> l.
Proof.
  intros Hn Hd Hk. pose proof (lookup_lt_Some _ _ _ Hd) as Hlt.
  rewrite (retrieve_absent p k w ns d Hn Hd Hk).
  set (w1 := set_heap _ w).
  assert (H1 : heap w1 !! artifacts ns = Some (ODict d)).
  { simpl. by rewrite lookup_app_l. }
  assert (Hn1 : nodes w1 !! p = Some ns) by done.
  exists (length (heap w)), w1. split; [done|].
  split; [by apply lookup_ge_None|]. split; [done|]. split; [done|]. split.
  - rewrite (retrieve_single p k w1 ns d Hn1 H1). by rewrite Hk.
  - rewrite (retrieve_absent p k w1 ns d Hn1 H1 Hk). eexists _, _. split; [done|].
    simpl. rewrite length_app. simpl. lia.
Qed.

Lemma retrieve_default_not_stored_witness :
  exists l w1,
    retrieve [] "k" false Examples.w_movie = (Ok (VRef l), w1)
    /\ retrieve [] "k" true w1 = (Ok VNone, w1).
Proof.
  destruct (retrieve_default_not_stored [] "k" Examples.w_movie (mkNodeState None 0%nat) ∅
              eq_refl eq_refl eq_refl) as (l & w1 & H1 & _ & _ & _ & H2 & _).
  by exists l, w1.
Defined.

(** X4. A store under one key leaves the other keys alone: after a store
    that returns, the node's artifacts are still a dictionary, the key
    stored under is present, and every other key holds what it held
    before, or is as absent as before. *)
Theorem store_other_keys p k k' v single w w' ns d :
  nodes w !! p = Some ns -> heap w !! artifacts ns = Some (ODict d) ->
  k' <> k ->
  store p k v single w = (Ok tt, w') ->
  nodes w' = nodes w
  /\ exists d', heap w' !! artifacts ns = Some (ODict d')
                /\ is_Some (d' !! k)
                /\ d' !! k' = d !! k'.
Proof.
  intros Hn Hd Hne Hrun. pose proof (lookup_lt_Some _ _ _ Hd) as Hlt.
  destruct single.
  { rewrite (store_single p k w ns d Hn Hd) in Hrun. injection Hrun as <-.
    split; [done|]. exists (<[k := v]> d). simpl.
    rewrite list_lookup_insert_eq by done. rewrite lookup_insert_eq.
    by rewrite lookup_insert_ne. }
  destruct (d !! k) as [u|] eqn:Hk.
  - destruct u as [| | | |l];
      try (unfold store in Hrun;
           rewrite (bind_ok _ _ _ _ _ (self_state_ok _ _ _ Hn)) in Hrun;
           rewrite (bind_ok _ _ _ _ _ (as_dict_ok _ _ _ Hd)), Hk in Hrun;
           unfold ret at 1 in Hrun; unfold bind at 1 in Hrun;
           rewrite (bind_ok _ _ _ _ _ (as_dict_ok _ _ _ Hd)), Hk in Hrun;
           discriminate Hrun).
    destruct (heap w !! l) as [[xs|dl]|] eqn:Hl.
    + rewrite (store_append p k w ns d Hn Hd l xs v Hk Hl) in Hrun. injection Hrun as <-.
      split; [done|]. exists d. simpl.
      rewrite list_lookup_insert_ne by (intros ->; congruence). by rewrite Hk.
    + unfold store in Hrun.
      rewrite (bind_ok _ _ _ _ _ (self_state_ok _ _ _ Hn)) in Hrun.
      rewrite (bind_ok _ _ _ _ _ (as_dict_ok _ _ _ Hd)), Hk in Hrun.
      unfold ret at 1 in Hrun. unfold bind at 1 in Hrun.
      rewrite (bind_ok _ _ _ _ _ (as_dict_ok _ _ _ Hd)), Hk in Hrun.
      unfold list_append in Hrun. rewrite Hl in Hrun. discriminate Hrun.
    + unfold store in Hrun.
      rewrite (bind_ok _ _ _ _ _ (self_state_ok _ _ _ Hn)) in Hrun.
      rewrite (bind_ok _ _ _ _ _ (as_dict_ok _ _ _ Hd)), Hk in Hrun.
      unfold ret at 1 in Hrun. unfold bind at 1 in Hrun.
      rewrite (bind_ok _ _ _ _ _ (as_dict_ok _ _ _ Hd)), Hk in Hrun.
      unfold list_append in Hrun. rewrite Hl in Hrun. discriminate Hrun.
  - rewrite (store_create p k w ns d Hn Hd v Hk) in Hrun. injection Hrun as <-.
    split; [done|]. exists (<[k := VRef (length (heap w))]> d). simpl.
    rewrite list_lookup_insert_ne by lia.
    rewrite list_lookup_insert_eq by (rewrite length_app; simpl; lia).
    rewrite lookup_insert_eq. by rewrite lookup_insert_ne.
Qed.

Lemma store_other_keys_witness :
  exists d', heap (snd (store [] "k" (VInt 1) false Examples.w_movie)) !! 0%nat
             = Some (ODict d')
             /\ is_Some (d' !! "k")
             /\ d' !! "other" = (∅ : gmap string val) !! "other".
Proof.
  apply (store_other_keys [] "k" "other" (VInt 1) false Examples.w_movie
           (snd (store [] "k" (VInt 1) false Examples.w_movie))
           (mkNodeState None 0%nat) ∅); [reflexivity | reflexivity | discriminate |].
  vm_compute. reflexivity.
Defined.

(** * Further properties of construction and reset *)

Lemma for_each_ext {X} (f g : X -> M unit) xs :
  Forall (fun x => forall w, f x w = g x w) xs ->
  forall w, for_each f xs w = for_each g xs w.
Proof.
  induction 1 as [|x xs Hx _ IH]; intros w; [done|].
  simpl. unfold bind. rewrite Hx. destruct (g x w) as [[[]|e|] w1]; [apply IH|done|done].
Qed.

(** A truthy value without a [copy] method is truthy and is not a
    mapping. *)
Lemma truthy_without_copy_spec h A :
  truthy_without_copy h A = true -> truthy h A = true /\ mapping_of h A = None.
Proof.
  destruct A as [| | | |l]; simpl; try done.
  by destruct (h !! l) as [[|]|].
Qed.

(** X5. [reset] with an argument that is truthy and of a type without a
    [copy] method ([True], a number other than zero, a non-empty string
    or a non-empty list) raises an [AttributeError] at the node it is
    called on: by then the node's start time has been overwritten with
    the clock reading, while its artifacts, every other node, the heap
    and the log are as they were; no child has been reset. *)
Theorem reset_rejects_non_mapping cls p A w :
  truthy_without_copy (heap w) A = true ->
  exists w',
    reset cls p A w = (Raise AttributeError, w')
    /\ heap w' = heap w
    /\ trace w' = trace w
    /\ nodes w' !! p
       = (fun ns => mkNodeState (Some (clock w (ticks w))) (artifacts ns)) <$> nodes w !! p
    /\ forall q, q <> p -> nodes w' !! q = nodes w !! q.
Proof.
  intros Hc. apply truthy_without_copy_spec in Hc as [Ht Hm].
  destruct cls as [k t a th hs cs]. simpl.
  unfold bind at 1, utcnow. unfold bind at 1, set_start_time, modify.
  set (w0 := set_nodes _ _).
  assert (Hc : copy_or_empty A w0 = (Raise AttributeError, w0)).
  { unfold copy_or_empty, bind, get_world. change (heap w0) with (heap w). rewrite Ht.
    unfold as_dict. change (heap w0) with (heap w).
    destruct A as [| | | |l]; try done. simpl in Hm.
    by destruct (heap w !! l) as [[|]|]. }
  rewrite (bind_raise _ _ _ _ _ Hc). exists w0. split; [done|]. split; [done|].
  split; [done|]. split.
  - simpl. apply lookup_alter_eq.
  - intros q Hq. simpl. by apply lookup_alter_ne.
Qed.

Lemma reset_rejects_non_mapping_witness :
  exists w',
    reset Examples.show_ok [] (VInt 3) Examples.w_show = (Raise AttributeError, w')
    /\ heap w' = heap Examples.w_show
    /\ nodes w' !! ["episode"] = nodes Examples.w_show !! ["episode"].
Proof.
  destruct (reset_rejects_non_mapping Examples.show_ok [] (VInt 3) Examples.w_show
              eq_refl) as (w' & Hrun & Hh & _ & _ & Hq).
  exists w'. split; [exact Hrun|]. split; [exact Hh|]. apply Hq. discriminate.
Defined.

(** X6. Any falsy argument that is not a container counts as absent:
    [reset(False)], [reset(0)] and [reset('')] do, on the whole subtree,
    exactly what [reset(None)] does. *)
Theorem reset_falsy_as_absent cls A :
  truthy [] A = false ->
  forall p w, reset cls p A w = reset cls p VNone w.
Proof.
  intros Hf.
  assert (Hcopy : forall w, copy_or_empty A w = copy_or_empty VNone w).
  { intros w. unfold copy_or_empty, bind, get_world.
    destruct A as [| | | |l]; simpl in *; by rewrite ?Hf. }
  assert (Hnode : forall p w, reset_node A p w = reset_node VNone p w).
  { intros p w. unfold reset_node, bind, utcnow, set_start_time, modify.
    by rewrite Hcopy. }
  induction cls as [k t a th hs cs IH] using SyncBase_tree_ind. intros p w.
  rewrite !reset_unfold. unfold bind. rewrite Hnode.
  destruct (reset_node VNone p w) as [[[]| |] w1]; try done.
  apply for_each_ext. eapply Forall_impl; [exact IH|]. intros c Hc w4. apply Hc.
Qed.

Lemma reset_falsy_as_absent_witness :
  reset Examples.show_ok [] (VInt 0) Examples.w_show
  = reset Examples.show_ok [] VNone Examples.w_show.
Proof.
  apply (reset_falsy_as_absent Examples.show_ok (VInt 0)). reflexivity.
Defined.

Section init.
Context (h0 : list obj).

Lemma init_node_post p w :
  reset_inv h0 ∅ w ->
  exists w', (a <- alloc (ODict ∅) ;; set_node p (mkNodeState None a)) w = (Ok tt, w')
             /\ init_post h0 [p] w w'.
Proof.
  intros [[n Hh] Hb Hi]. eexists. split; [done|].
  assert (Hlen : (length h0 <= length (heap w))%nat) by (rewrite Hh, length_app; lia).
  split; [|split; [done|split; [|split]]].
  - split.
    + exists (S n). by rewrite replicate_S_end, app_assoc, <-Hh.
    + unfold no_dangling in *. intros q ns Hq. simpl in *. rewrite length_app. simpl.
      destruct (decide (p = q)) as [<-|Hne].
      * rewrite lookup_insert_eq in Hq. injection Hq as <-. simpl. lia.
      * rewrite lookup_insert_ne in Hq by done. specialize (Hb q ns Hq). simpl in Hb. lia.
    + intros q1 q2 ns1 ns2 H1 H2 Hge Heq. simpl in H1, H2.
      destruct (decide (p = q1)) as [<-|Hne1], (decide (p = q2)) as [<-|Hne2]; [done| | |].
      * rewrite lookup_insert_eq in H1. injection H1 as <-.
        rewrite lookup_insert_ne in H2 by done.
        specialize (Hb q2 ns2 H2). simpl in *. lia.
      * rewrite lookup_insert_eq in H2. injection H2 as <-.
        rewrite lookup_insert_ne in H1 by done.
        specialize (Hb q1 ns1 H1). simpl in *. lia.
      * rewrite lookup_insert_ne in H1 by done. rewrite lookup_insert_ne in H2 by done.
        by apply (Hi q1 q2 ns1 ns2).
  - intros q (ns & Hq & Hs & Hge & Hd). destruct (decide (p = q)) as [<-|Hne].
    + eexists. simpl. rewrite lookup_insert_eq. split; [done|]. simpl.
      split; [done|]. split; [lia|]. rewrite lookup_app_r by lia. by rewrite Nat.sub_diag.
    + exists ns. simpl. rewrite lookup_insert_ne by done. repeat split; try done.
      rewrite lookup_app_l; [done|]. by eapply lookup_lt_Some.
  - intros q Hq. apply list_elem_of_singleton in Hq as ->.
    eexists. simpl. rewrite lookup_insert_eq. split; [done|]. simpl.
    split; [done|]. split; [lia|]. rewrite lookup_app_r by lia. by rewrite Nat.sub_diag.
  - intros q Hq. simpl. apply lookup_insert_ne. intros ->. apply Hq. by left.
Qed.

Lemma init_children_spec cs p :
  Forall (fun c => forall p w, reset_inv h0 ∅ w ->
            exists w', init c p w = (Ok tt, w') /\ init_post h0 (paths c p) w w') cs ->
  forall w, reset_inv h0 ∅ w ->
    exists w', for_each (fun c => init c (child_path p c)) cs w = (Ok tt, w')
               /\ reset_inv h0 ∅ w'
               /\ trace w' = trace w
               /\ (forall q, pristine h0 w q -> pristine h0 w' q)
               /\ (forall q, q ∈ (cs ≫= fun c => paths c (child_path p c)) ->
                      pristine h0 w' q)
               /\ (forall q, q ∉ (cs ≫= fun c => paths c (child_path p c)) ->
                      nodes w' !! q = nodes w !! q).
Proof.
  induction 1 as [|c cs Hc _ IH]; intros w Hinv.
  - exists w. do 4 (split; [done|]). split; [|done].
    intros q Hq. by apply elem_of_nil in Hq.
  - destruct (Hc (child_path p c) w Hinv) as (w1 & Hrun1 & Hinv1 & Ht1 & Hk1 & Hf1 & Ho1).
    destruct (IH w1 Hinv1) as (w2 & Hrun2 & Hinv2 & Ht2 & Hk2 & Hf2 & Ho2).
    exists w2. split.
    { simpl. by rewrite (bind_ok _ _ _ _ _ Hrun1). }
    split; [done|]. split; [congruence|]. split; [by auto|]. split.
    + intros q Hq. change (q ∈ paths c (child_path p c)
                               ++ (cs ≫= fun c => paths c (child_path p c))) in Hq.
      apply elem_of_app in Hq as [Hq|Hq]; auto.
    + intros q Hq. rewrite Ho2, Ho1; [done| |]; intros Hin; apply Hq;
        change (q ∈ paths c (child_path p c)
                    ++ (cs ≫= fun c => paths c (child_path p c)));
        apply elem_of_app; auto.
Qed.

Lemma init_spec cls :
  forall p w, reset_inv h0 ∅ w ->
    exists w', init cls p w = (Ok tt, w') /\ init_post h0 (paths cls p) w w'.
Proof.
  induction cls as [k t a th hs cs IH] using SyncBase_tree_ind. intros p w Hinv.
  destruct (init_children_spec cs p IH w Hinv)
    as (w1 & Hrun1 & Hinv1 & Ht1 & Hk1 & Hf1 & Ho1).
  destruct (init_node_post p w1 Hinv1) as (w2 & Hrun2 & Hinv2 & Ht2 & Hk2 & Hf2 & Ho2).
  exists w2. split.
  { simpl. by rewrite (bind_ok _ _ _ _ _ Hrun1). }
  split; [done|]. split; [congruence|]. split; [by auto|]. split.
  - intros q Hq. simpl in Hq. apply elem_of_cons in Hq as [->|Hq].
    + apply Hf2. by left.
    + by apply Hk2, Hf1.
  - intros q Hq. simpl in Hq. rewrite not_elem_of_cons in Hq. destruct Hq as [Hne Hq].
    rewrite Ho2, Ho1; [done|done|]. intros Hin. by apply list_elem_of_singleton in Hin.
Qed.
End init.

(** X7. Constructing a tree always succeeds, logs nothing and changes
    no object that existed before.  Afterwards every node of the tree
    has no start time and an empty artifacts dictionary, allocated by the
    construction and shared with no other node, so that a single-valued
    retrieve of any key on any node returns [None]. *)
Theorem init_pristine cls p w :
  no_dangling w ->
  exists w',
    init cls p w = (Ok tt, w')
    /\ trace w' = trace w
    /\ (forall l o, heap w !! l = Some o -> heap w' !! l = Some o)
    /\ (forall q, q ∈ paths cls p ->
          pristine (heap w) w' q
          /\ forall k, retrieve q k true w' = (Ok VNone, w'))
    /\ (forall q1 q2 ns1 ns2, q1 ∈ paths cls p -> q1 <> q2 ->
          nodes w' !! q1 = Some ns1 -> nodes w' !! q2 = Some ns2 ->
          artifacts ns1 <> artifacts ns2).
Proof.
  intros Hb. pose proof (reset_inv_initial w ∅ Hb) as Hinv.
  destruct (init_spec (heap w) cls p w Hinv)
    as (w' & Hrun & [[n Hh] Hb' Hinj] & Ht & _ & Hfresh & _).
  exists w'. split; [done|]. split; [done|]. split; [|split].
  - intros l o Hl. rewrite Hh, lookup_app_l; [done|]. by eapply lookup_lt_Some.
  - intros q Hq. split; [by apply Hfresh|].
    destruct (Hfresh q Hq) as (ns & Hn & _ & _ & Hd). intros k.
    by rewrite (retrieve_single q k w' ns ∅ Hn Hd).
  - intros q1 q2 ns1 ns2 Hq1 Hne H1 H2 Heq. apply Hne.
    destruct (Hfresh q1 Hq1) as (ns & Hn & _ & Hge & _).
    rewrite H1 in Hn. injection Hn as <-. by apply (Hinj q1 q2 ns1 ns2).
Qed.

Lemma init_pristine_witness :
  exists w',
    init Examples.show_ok [] Examples.w0 = (Ok tt, w')
    /\ retrieve ["episode"] "watched" true w' = (Ok VNone, w').
Proof.
  destruct (init_pristine Examples.show_ok [] Examples.w0) as (w' & Hrun & _ & _ & Hq & _).
  - apply map_Forall_empty.
  - exists w'. split; [exact Hrun|]. apply Hq. simpl. right. left.
Defined.

(** * Further properties of the engine *)

(** X8. A sequential batch calls its functions in the order given and
    collects one result for each: running a batch that is the
    concatenation of two has the results of the first followed by those
    of the second, and the effects of the first followed by those of the
    second.  A result that is false stops nothing. *)
Theorem trigger_run_sequential_app cls fs1 fs2 args kw w r1 w1 r2 w2 :
  threaded cls = false ->
  trigger_run cls fs1 (VBool false) args kw w = (Ok (Results r1), w1) ->
  trigger_run cls fs2 (VBool false) args kw w1 = (Ok (Results r2), w2) ->
  trigger_run cls (fs1 ++ fs2) (VBool false) args kw w = (Ok (Results (r1 ++ r2)), w2)
  /\ length r1 = length fs1
  /\ length r2 = length fs2.
Proof.
  intros Hth H1 H2.
  apply (trigger_run_sequential_results _ _ _ _ _ _ _ Hth) in H1.
  apply (trigger_run_sequential_results _ _ _ _ _ _ _ Hth) in H2.
  split; [|split; by eapply call_each_length].
  apply (trigger_run_sequential_results _ _ _ _ _ _ _ Hth).
  by rewrite call_each_app, (bind_ok _ _ _ _ _ H1), (bind_ok _ _ _ _ _ H2).
Qed.

Lemma trigger_run_sequential_app_witness :
  trigger_run Examples.show_ok
    ([("a", Examples.const_handler (VBool false) [])]
     ++ [("b", Examples.const_handler (VBool true) [])]) (VBool false) [] [] Examples.w0
  = (Ok (Results ([VBool false] ++ [VBool true])), Examples.w0).
Proof.
  apply (trigger_run_sequential_app Examples.show_ok
           [("a", Examples.const_handler (VBool false) [])]
           [("b", Examples.const_handler (VBool true) [])] [] [] Examples.w0
           [VBool false] Examples.w0 [VBool true] Examples.w0); reflexivity.
Defined.

(** X9. A sequential batch fails fast: when the functions before one
    have returned and that one raises, the batch raises the same
    exception in the state that function left; the functions after it
    are not called, whatever they are and whatever [single] is. *)
Theorem trigger_run_sequential_fail_fast cls fs1 name f fs2 single args kw w r1 w1 e w2 :
  threaded cls = false ->
  trigger_run cls fs1 (VBool false) args kw w = (Ok (Results r1), w1) ->
  f args kw w1 = (Raise e, w2) ->
  trigger_run cls (fs1 ++ (name, f) :: fs2) single args kw w = (Raise e, w2).
Proof.
  intros Hth H1 Hf.
  apply (trigger_run_sequential_results _ _ _ _ _ _ _ Hth) in H1.
  rewrite trigger_run_sequential by done. unfold bind at 1.
  rewrite call_each_app, (bind_ok _ _ _ _ _ H1). simpl. unfold bind. by rewrite Hf.
Qed.

Lemma trigger_run_sequential_fail_fast_witness :
  trigger_run Examples.show_ok
    ([("a", Examples.const_handler (VBool true) [])]
     ++ ("b", Examples.raising_handler (UserError "boom") [])
        :: [("c", Examples.const_handler (VBool true) [])])
    (VBool true) [] [] Examples.w0
  = (Raise (UserError "boom"), Examples.w0).
Proof.
  apply (trigger_run_sequential_fail_fast Examples.show_ok
           [("a", Examples.const_handler (VBool true) [])] "b"
           (Examples.raising_handler (UserError "boom") [])
           [("c", Examples.const_handler (VBool true) [])] (VBool true) [] []
           Examples.w0 [VBool true] Examples.w0); reflexivity.
Defined.

(** X10. [single] changes what a sequential batch hands back, not what
    it runs: with [single] truthy every function is still called, the
    state is the one the whole batch leaves, and the value returned is
    the first result. *)
Theorem trigger_run_single_runs_all cls funcs single args kw w r rs w' :
  threaded cls = false ->
  truthy (heap w') single = true ->
  trigger_run cls funcs (VBool false) args kw w = (Ok (Results (r :: rs)), w') ->
  trigger_run cls funcs single args kw w = (Ok (First r), w').
Proof.
  intros Hth Hs H.
  apply (trigger_run_sequential_results _ _ _ _ _ _ _ Hth) in H.
  rewrite trigger_run_sequential by done.
  rewrite (bind_ok _ _ _ _ _ H). unfold bind, get_world, ret. by rewrite Hs.
Qed.

Lemma trigger_run_single_runs_all_witness :
  trigger_run Examples.show_ok
    [("a", Examples.const_handler (VInt 7) []);
     ("b", Examples.const_handler (VInt 8) [])] (VBool true) [] [] Examples.w0
  = (Ok (First (VInt 7)), Examples.w0).
Proof.
  apply (trigger_run_single_runs_all Examples.show_ok _ (VBool true) [] [] Examples.w0
           (VInt 7) [VInt 8] Examples.w0); reflexivity.
Defined.

Lemma run_workers_all_fail funcs args kw n :
  (0 < n)%nat -> Forall (fun nf => always_fails (snd nf)) funcs ->
  forall order w,
    exists w', run_workers funcs args kw order (mkSemaphore n n) [] w
               = ((mkSemaphore n n, []), w').
Proof.
  intros Hn Hall. induction order as [|i order IH]; intros w.
  - by exists w.
  - simpl. destruct (funcs !! i) as [[name f]|] eqn:Hi; [|apply IH].
    assert (Hf : always_fails f).
    { rewrite Forall_forall in Hall. apply (Hall (name, f)).
      by eapply list_elem_of_lookup_2. }
    destruct (Hf args kw w) as (e & w1 & Hraise & Hsw).
    rewrite (trigger_spawn_run (mkSemaphore n n) [] (f args kw) w) by (simpl; lia).
    rewrite Hraise, Hsw. simpl. apply IH.
Qed.

Lemma trigger_run_all_fail cls funcs single args kw w :
  threaded cls = true -> Forall (fun nf => always_fails (snd nf)) funcs ->
  exists w', trigger_run cls funcs single args kw w = (Ok (Results []), w').
Proof.
  intros Hth Hall. destruct funcs as [|nf funcs'] eqn:Hfuncs.
  { by exists w. }
  rewrite <-Hfuncs in *. assert (Hne : funcs <> []) by (by rewrite Hfuncs).
  assert (Hpos : (0 < length funcs)%nat) by (rewrite Hfuncs; simpl; lia).
  destruct (trigger_run_threaded cls funcs single args kw w Hth Hne)
    as (order & w1 & Hs & Heq).
  destruct (run_workers_all_fail funcs args kw _ Hpos Hall order w1) as (w2 & Hw).
  exists w2. rewrite Heq, Hw. simpl. unfold bind.
  pose proof (acquire_all_ok (length funcs) 0 (length funcs) w2) as Ha.
  rewrite Nat.add_0_r in Ha. by rewrite Ha.
Qed.

Lemma child_funcs_none run_child p cs :
  Forall (fun c => auto_run c = false) cs -> child_funcs run_child p cs = [].
Proof.
  induction 1 as [|c cs Hc _ IH]; [done|].
  unfold child_funcs in *.
  change (omap ?f (c :: cs)) with (match f c with
                                   | Some y => y :: omap f cs
                                   | None => omap f cs
                                   end).
  cbv beta. rewrite Hc. apply IH.
Qed.

Lemma trigger_children_none cls p args kw w :
  Forall (fun c => auto_run c = false) (children cls) ->
  trigger_children cls p args kw w = (Ok (Results []), w).
Proof.
  intros Hc. unfold trigger_children, trigger_children_with.
  destruct (kw_pop "single" kw) as [single kw']. by rewrite child_funcs_none.
Qed.

Lemma resolved_all_fail cls p (names : list string) :
  Forall (fun h => forall q, always_fails (snd h q)) (handlers cls) ->
  Forall (fun nf => always_fails (snd nf)) (omap (resolve cls p) names).
Proof.
  intros Hall. apply Forall_forall. intros [n f] Hin.
  apply list_elem_of_omap in Hin as (name & _ & Hres). unfold resolve in Hres.
  destruct (find _ (handlers cls)) as [h|] eqn:Hf; [|done]. injection Hres as _ <-.
  apply find_some in Hf as [Hh _]. apply list_elem_of_In in Hh.
  rewrite Forall_forall in Hall. by apply Hall.
Qed.

(** X11. On a threaded node a failure is not a verdict: when every
    handler of the node raises an exception that derives from
    [Exception] and that the worker can format into its warning,
    whatever the order in which the workers finish, the exceptions are
    swallowed, the results list is empty, its conjunction is true, and
    with no child to run automatically [run] goes on to record a
    success. *)
Theorem run_threaded_failures_count_as_success cls p args kw w w1 :
  threaded cls = true ->
  Forall (fun h => forall q, always_fails (snd h q)) (handlers cls) ->
  Forall (fun c => auto_run c = false) (children cls) ->
  reset cls p (kw_get "artifacts" kw) w = (Ok tt, w1) ->
  exists w2,
    trigger cls p FuncsNone args kw w1 = (Ok (Results []), w2)
    /\ run cls p args kw w = (update_status cls p true None None VNone ;;; ret true) w2.
Proof.
  intros Hth Hall Hc Hreset.
  assert (Htr : exists w2, trigger cls p FuncsNone args kw w1 = (Ok (Results []), w2)).
  { unfold trigger. destruct (kw_pop "single" kw) as [single kw'].
    apply trigger_run_all_fail; [done|]. by apply resolved_all_fail. }
  destruct Htr as (w2 & Htr). exists w2. split; [done|].
  rewrite run_unfold, (bind_ok _ _ _ _ _ Hreset), (bind_ok _ _ _ _ _ Htr).
  unfold bind at 1. simpl.
  by rewrite (bind_ok _ _ _ _ _ (trigger_children_none cls p args kw w2 Hc)).
Qed.

Lemma run_threaded_failures_count_as_success_witness :
  fst (run (mkSyncBase "show" None true true
              [("watched", Examples.raising_handler (UserError "boom"))] [])
           [] [] [] Examples.w0) = Ok true.
Proof.
  destruct (run_threaded_failures_count_as_success
              (mkSyncBase "show" None true true
                 [("watched", Examples.raising_handler (UserError "boom"))] [])
              [] [] [] Examples.w0
              (snd (reset (mkSyncBase "show" None true true
                             [("watched", Examples.raising_handler (UserError "boom"))] [])
                          [] VNone Examples.w0)))
    as (w2 & _ & Hrun).
  - reflexivity.
  - repeat constructor. intros q args kw w. by exists (UserError "boom"), w.
  - constructor.
  - reflexivity.
  - reflexivity.
Defined.

(** X12. With no names given, [trigger] dispatches every run handler of
    the node, once each, in the order they are listed, bound to the
    node, and passes them the keywords without [single]. *)
Theorem trigger_discovers_all cls p args kw w :
  NoDup (map fst (handlers cls)) ->
  trigger cls p FuncsNone args kw w
  = trigger_run cls (map (fun h => (fst h, snd h p)) (handlers cls))
      (fst (kw_pop "single" kw)) args (filter (fun e => fst e ≠ "single") kw) w.
Proof.
  intros Hnd. unfold trigger, kw_pop. f_equal.
  assert (H : forall hs, (forall h, h ∈ hs -> h ∈ handlers cls) ->
            omap (resolve cls p) (map fst hs) = map (fun h => (fst h, snd h p)) hs).
  { induction hs as [|h hs IH]; intros Hin; [done|].
    change (omap (resolve cls p) (map fst (h :: hs)))
      with (match resolve cls p (fst h) with
            | Some y => y :: omap (resolve cls p) (map fst hs)
            | None => omap (resolve cls p) (map fst hs)
            end).
    unfold resolve at 1. rewrite (find_unique_key (handlers cls) h Hnd) by (apply Hin; by left).
    simpl. f_equal. apply IH. intros h' Hh'. apply Hin. by right. }
  by rewrite H.
Qed.

Lemma trigger_discovers_all_witness :
  trigger Examples.show_main [] FuncsNone [] [("single", VBool true)] Examples.w0
  = trigger_run Examples.show_main
      [("main", Examples.main_handler []);
       ("watched", Examples.const_handler (VBool true) [])]
      (VBool true) [] [] Examples.w0.
Proof.
  apply (trigger_discovers_all Examples.show_main [] [] [("single", VBool true)]
           Examples.w0).
  apply (bool_decide_unpack (NoDup (map fst (handlers Examples.show_main)))).
  vm_compute. reflexivity.
Defined.

(** X13. Children that are not [auto_run] are reset with their parent
    but are never run by it: on a node without handlers whose children
    all have [auto_run] unset, [run] returns [True], and all it adds to
    the state the reset left is one successful status update. *)
Theorem run_without_work cls p args kw w w1 sec s :
  handlers cls = [] ->
  Forall (fun c => auto_run c = false) (children cls) ->
  reset cls p (kw_get "artifacts" kw) w = (Ok tt, w1) ->
  status_section VNone w1 = Some sec -> start_for None p w1 = Some s ->
  exists w' kk,
    run cls p args kw w = (Ok true, w')
    /\ trace w' = trace w ++ status_events cls sec kk true s (clock w1 (ticks w1))
    /\ heap w' = heap w1
    /\ nodes w' = nodes w1.
Proof.
  intros Hh Hc Hreset Hsec Hs.
  destruct (update_status_ok cls p true None None VNone w1 sec s Hsec Hs)
    as (w' & kk & Hup & Ht & _ & _ & Hheap & Hnodes & _).
  exists w', kk. split; [|split; [|done]].
  - rewrite run_unfold, (bind_ok _ _ _ _ _ Hreset).
    assert (Htr : trigger cls p FuncsNone args kw w1 = (Ok (Results []), w1)).
    { unfold trigger. destruct (kw_pop "single" kw) as [single kw']. by rewrite Hh. }
    rewrite (bind_ok _ _ _ _ _ Htr). unfold bind at 1. simpl.
    rewrite (bind_ok _ _ _ _ _ (trigger_children_none cls p args kw w1 Hc)).
    unfold bind at 1. simpl. by rewrite (bind_ok _ _ _ _ _ Hup).
  - rewrite Ht. destruct (reset_silent _ _ _ _ _ _ Hreset) as [-> _]. done.
Qed.

Lemma run_without_work_witness :
  exists w' kk,
    run (mkSyncBase "show" None true false []
           [mkSyncBase "episode" None false false
              [("watched", Examples.raising_handler (UserError "boom"))] []])
        [] [] [] Examples.w0 = (Ok true, w')
    /\ trace w' = status_events (mkSyncBase "show" None true false [] []) (VStr "1") kk
                    true 100 102.
Proof.
  destruct (run_without_work
              (mkSyncBase "show" None true false []
                 [mkSyncBase "episode" None false false
                    [("watched", Examples.raising_handler (UserError "boom"))] []])
              [] [] [] Examples.w0
              (snd (reset (mkSyncBase "show" None true false []
                             [mkSyncBase "episode" None false false
                                [("watched", Examples.raising_handler (UserError "boom"))]
                                []]) [] VNone Examples.w0))
              (VStr "1") 100) as (w' & kk & Hrun & Ht & _).
  - reflexivity.
  - repeat constructor.
  - reflexivity.
  - reflexivity.
  - reflexivity.
  - exists w', kk. split; [exact Hrun|exact Ht].
Defined.

(** * Further properties of status recording *)

Lemma bind_frame {A B} (F : world -> world -> Prop) (m : M A) (k : A -> M B) w r w' :
  (forall w1 w2 w3, F w1 w2 -> F w2 w3 -> F w1 w3) ->
  (forall x w1, m w = (x, w1) -> F w w1) ->
  (forall a w1 x w2, m w = (Ok a, w1) -> k a w1 = (x, w2) -> F w1 w2) ->
  bind m k w = (r, w') -> F w w'.
Proof.
  intros Htrans Hm Hk Hrun. unfold bind in Hrun.
  destruct (m w) as [[a|e|] w1] eqn:Hmw.
  - eapply Htrans; [by eapply Hm|by eapply Hk].
  - injection Hrun as _ <-. by eapply Hm.
  - injection Hrun as _ <-. by eapply Hm.
Qed.

Lemma status_frame_refl cls w : status_frame cls w w.
Proof. repeat split; try done. exists []. by rewrite app_nil_r. Qed.

Lemma status_frame_trans cls w1 w2 w3 :
  status_frame cls w1 w2 -> status_frame cls w2 w3 -> status_frame cls w1 w3.
Proof.
  intros (Hh1 & Hn1 & Hc1 & [e1 Ht1] & Hk1 & Hs1) (Hh2 & Hn2 & Hc2 & [e2 Ht2] & Hk2 & Hs2).
  repeat split; try congruence.
  - exists (e1 ++ e2). by rewrite Ht2, Ht1, app_assoc.
  - intros k sec Hk. by rewrite Hs2, Hs1.
Qed.

Lemma status_frame_emit cls e w : status_frame cls w (emit e w).
Proof. repeat split; try done. by exists [e]. Qed.

Lemma get_status_frame cls section w x w' :
  get_status cls section w = (x, w') ->
  status_frame cls w w'
  /\ forall r, x = Ok (Some r) -> fst r = task_or_key cls.
Proof.
  assert (Hm : forall sec w x w',
            manager_get_status (task_or_key cls) sec w = (x, w') ->
            status_frame cls w w' /\ forall r, x = Ok r -> fst r = task_or_key cls).
  { intros sec w0 x0 w0' H.
    unfold manager_get_status, bind, modify, get_world, ret in H. cbn in H.
    destruct (statuses w0 !! (task_or_key cls, sec)); cbn in H; injection H as <- <-.
    - split; [apply status_frame_emit|]. by intros r [= <-].
    - split; [|by intros r [= <-]]. repeat split; try done; [by eexists|].
      intros k sec' Hk. cbn. apply lookup_insert_ne. congruence. }
  intros H. unfold get_status in H. destruct section.
  1: { unfold manager_get_current, bind at 1, bind at 1, modify, get_world, ret in H.
       cbn in H. destruct (current w) as [tk|].
       - unfold bind in H.
         destruct (manager_get_status _ _ (emit EvGetCurrent w)) as [[r|e|] w1] eqn:Hg;
           injection H as <- <-; destruct (Hm _ _ _ _ Hg) as [Hf Hr];
           (split; [eapply status_frame_trans; [apply status_frame_emit|exact Hf]|]);
           try done. intros r' [= <-]. by apply Hr.
       - injection H as <- <-. split; [apply status_frame_emit|done]. }
  all: unfold bind in H;
    match type of H with
    | context [manager_get_status ?k ?s ?w0] =>
        destruct (manager_get_status k s w0) as [[r|e|] w1] eqn:Hg
    end;
    injection H as <- <-; destruct (Hm _ _ _ _ Hg) as [Hf Hr];
    (split; [exact Hf|]); try done; intros r' [= <-]; by apply Hr.
Qed.

Lemma status_update_frame cls r success start finish w x w' :
  fst r = task_or_key cls ->
  status_update r success start finish w = (x, w') -> status_frame cls w w'.
Proof.
  intros Hr H. unfold status_update, status_fields, bind, modify, raise in H.
  destruct (statuses w !! r) as [st|]; [|injection H as _ <-; apply status_frame_refl].
  destruct start as [s|]; [|injection H as _ <-; apply status_frame_refl].
  cbn in H. injection H as _ <-. repeat split; try done; [by eexists|].
  intros k sec Hk. cbn. apply lookup_insert_ne. destruct r. simpl in Hr. congruence.
Qed.

(** X14. Whatever its outcome, [update_status] touches nothing but the
    Manager and the log: the heap, the nodes and the operation in
    progress are as before, the trace is only extended, the records of
    every other task are unchanged, and the clock is read once when no
    end time is given and not at all otherwise. *)
Theorem update_status_frame cls p success end_time start_time' section w r w' :
  update_status cls p success end_time start_time' section w = (r, w') ->
  heap w' = heap w
  /\ nodes w' = nodes w
  /\ current w' = current w
  /\ (exists evs, trace w' = trace w ++ evs)
  /\ ticks w' = match end_time with None => S (ticks w) | Some _ => ticks w end
  /\ forall k sec, k <> task_or_key cls -> statuses w' !! (k, sec) = statuses w !! (k, sec).
Proof.
  intros Hrun. unfold update_status in Hrun.
  set (w1 := match end_time with Some _ => w | None => set_ticks (S (ticks w)) w end).
  assert (H1 : match end_time with Some e => ret e | None => utcnow end w
               = (Ok (end_for end_time w), w1)).
  { unfold w1. by destruct end_time. }
  rewrite (bind_ok _ _ _ _ _ H1) in Hrun.
  assert (Hf : status_frame cls w1 w').
  { eapply (bind_frame (status_frame cls)); [apply status_frame_trans| | |exact Hrun].
    - intros x w2 Hg. by apply (get_status_frame _ _ _ _ _ Hg).
    - intros [r0|] w2 x w3 Hg Hk; [|injection Hk as _ <-; apply status_frame_refl].
      destruct (get_status_frame _ _ _ _ _ Hg) as [_ Hkey].
      specialize (Hkey r0 eq_refl).
      eapply (bind_frame (status_frame cls)); [apply status_frame_trans| | |exact Hk].
      + intros y w4 Hst. destruct start_time'; [injection Hst as _ <-; apply status_frame_refl|].
        unfold bind, self_state in Hst.
        destruct (nodes w2 !! p); injection Hst as _ <-; apply status_frame_refl.
      + intros start w4 y w5 _ Hrest.
        eapply (bind_frame (status_frame cls)); [apply status_frame_trans| | |exact Hrest].
        * intros z w6 Hu. by eapply status_update_frame.
        * intros [] w6 z w7 _ Hlog. unfold bind, status_fields, modify in Hlog.
          destruct (statuses w6 !! r0); injection Hlog as _ <-;
            [apply status_frame_emit|apply status_frame_refl]. }
  destruct Hf as (Hh & Hn & Hc & [evs Ht] & Hk & Hs).
  unfold w1 in *. destruct end_time; repeat split; try done; by exists evs.
Qed.

Lemma update_status_frame_witness :
  statuses (snd (update_status Examples.episode ["episode"] true None None VNone
                   Examples.w_prior)) !! ("show", VStr "1")
  = statuses Examples.w_prior !! ("show", VStr "1").
Proof.
  apply (update_status_frame Examples.episode ["episode"] true None None VNone
           Examples.w_prior
           (fst (update_status Examples.episode ["episode"] true None None VNone
                   Examples.w_prior))).
  - apply surjective_pairing.
  - discriminate.
Defined.

Lemma get_status_existing cls section w sec st :
  status_section section w = Some sec ->
  statuses w !! (task_or_key cls, sec) = Some st ->
  exists w2, get_status cls section w = (Ok (Some (task_or_key cls, sec)), w2)
             /\ statuses w2 = statuses w.
Proof.
  intros Hsec Hst. unfold get_status, status_section in *.
  destruct section; cbn in Hsec.
  1: { destruct (current w) as [tk|] eqn:Hc; [|done]. cbn in Hsec. injection Hsec as <-.
       unfold manager_get_current, manager_get_status, bind, modify, get_world. cbn.
       rewrite ?Hc. cbn. rewrite Hst. cbn. by eexists. }
  all: injection Hsec as <-;
    unfold manager_get_status, bind, modify, get_world; cbn; rewrite Hst; cbn; by eexists.
Qed.

(** X15. What a status update writes is what the next lookup finds:
    after an [update_status] that returns, [get_status] with the same
    section hands back a record of the task, creates none, and that
    record holds the success flag, the start time and the elapsed
    duration just written. *)
Theorem update_then_get_status cls p b end_time start_time' section w w' :
  update_status cls p b end_time start_time' section w = (Ok tt, w') ->
  exists sec kk s w'',
    get_status cls section w' = (Ok (Some (task_or_key cls, sec)), w'')
    /\ statuses w'' = statuses w'
    /\ statuses w'' !! (task_or_key cls, sec)
       = Some (mkSyncStatus kk (Some b) (Some s) (Some (end_for end_time w - s))).
Proof.
  intros Hrun. destruct (update_status_inv _ _ _ _ _ _ _ _ Hrun) as (sec & s & Hsec & Hs).
  destruct (update_status_ok cls p b end_time start_time' section w sec s Hsec Hs)
    as (w2 & kk & Hrun2 & _ & Hst & _ & _ & _ & Hc).
  rewrite Hrun in Hrun2. injection Hrun2 as <-.
  assert (Hsec' : status_section section w' = Some sec).
  { unfold status_section in *. destruct section; try done. by rewrite Hc. }
  destruct (get_status_existing cls section w' sec _ Hsec' Hst) as (w'' & Hget & Hsame).
  exists sec, kk, s, w''. split; [done|]. split; [done|]. by rewrite Hsame.
Qed.

Lemma update_then_get_status_witness :
  exists sec kk s w'',
    get_status Examples.show_ok VNone
      (snd (update_status Examples.show_ok [] false (Some 50) (Some 40) VNone
              Examples.w_prior))
    = (Ok (Some ("show", sec)), w'')
    /\ statuses w'' !! ("show", sec) = Some (mkSyncStatus kk (Some false) (Some s) (Some (50 - s))).
Proof.
  destruct (update_then_get_status Examples.show_ok [] false (Some 50) (Some 40) VNone
              Examples.w_prior
              (snd (update_status Examples.show_ok [] false (Some 50) (Some 40) VNone
                      Examples.w_prior)) eq_refl)
    as (sec & kk & s & w'' & Hget & _ & Hst).
  by exists sec, kk, s, w''.
Defined.

(** * Further properties of episodes and preferences *)

(** X17. With explicit episodes [store_episodes] never consults a child:
    on any node, with or without a child named [episode], and whatever
    [artifact] is, it merges and stores; only [None] counts as no
    episodes, so a falsy value such as [0] or [False] is stored as well.
    On a key not stored before the sequence under the key then holds one
    reference, to a new dictionary with the entries of [show] and the
    episodes. *)
Theorem store_episodes_explicit cls p k eps artifact ls w ns d ds :
  eps <> VNone ->
  nodes w !! p = Some ns -> heap w !! artifacts ns = Some (ODict d) -> d !! k = None ->
  heap w !! ls = Some (ODict ds) ->
  exists w' l m,
    store_episodes cls p k (VRef ls) eps artifact w = (Ok tt, w')
    /\ retrieve p k false w' = (Ok (VRef l), w')
    /\ heap w' !! l = Some (OList [VRef m])
    /\ heap w' !! m = Some (ODict (<["episodes" := eps]> ds)).
Proof.
  intros Heps Hn Hd Hk Hls.
  destruct (merge_store_new p k eps ls w ns d ds Hn Hd Hk Hls)
    as (w' & l & m & Hrun & Hret & Hl & Hm).
  exists w', l, m. split; [|done].
  rewrite <-Hrun. unfold store_episodes. by destruct eps.
Qed.

Lemma store_episodes_explicit_witness :
  exists w' l m,
    store_episodes Examples.movie [] "watched" (VRef 1%nat) (VInt 0) (Some "ignored")
      (snd (alloc (ODict {["title" := VStr "Heat"]}) Examples.w_movie)) = (Ok tt, w')
    /\ retrieve [] "watched" false w' = (Ok (VRef l), w')
    /\ heap w' !! l = Some (OList [VRef m])
    /\ heap w' !! m = Some (ODict (<["episodes" := VInt 0]> {["title" := VStr "Heat"]})).
Proof.
  apply (store_episodes_explicit Examples.movie [] "watched" (VInt 0) (Some "ignored")
           1%nat (snd (alloc (ODict {["title" := VStr "Heat"]}) Examples.w_movie))
           (mkNodeState None 0%nat) ∅ {["title" := VStr "Heat"]});
    [discriminate | reflexivity | reflexivity | reflexivity | reflexivity].
Defined.

Lemma get_enabled_functions_sublist prefs h :
  sublist (get_enabled_functions prefs h) ["watched"; "ratings"; "collected"].
Proof.
  unfold get_enabled_functions.
  destruct (truthy h (prefs "sync_watched")), (truthy h (prefs "sync_ratings")),
    (truthy h (prefs "sync_collection")); simpl;
    repeat (first [apply sublist_nil | apply sublist_skip; solve
      [repeat (first [apply sublist_nil | apply sublist_skip | apply sublist_cons])]
      | apply sublist_cons | apply sublist_skip]).
Qed.

(** X18. [get_enabled_functions] returns the names of the enabled sync
    functions in the fixed order watched, ratings, collected, each at
    most once: a name is in the result exactly when it is one of the
    three and its preference is truthy. *)
Theorem get_enabled_functions_spec prefs h name :
  sublist (get_enabled_functions prefs h) ["watched"; "ratings"; "collected"]
  /\ NoDup (get_enabled_functions prefs h)
  /\ (name ∈ get_enabled_functions prefs h
      <-> exists pref, pref_of name = Some pref /\ truthy h (prefs pref) = true).
Proof.
  split; [apply get_enabled_functions_sublist|]. split.
  - eapply sublist_NoDup; [|apply get_enabled_functions_sublist].
    apply (bool_decide_unpack (NoDup ["watched"; "ratings"; "collected"])).
    vm_compute. reflexivity.
  - unfold get_enabled_functions, pref_of.
    destruct (truthy h (prefs "sync_watched")) eqn:Hw,
      (truthy h (prefs "sync_ratings")) eqn:Hr,
      (truthy h (prefs "sync_collection")) eqn:Hc; simpl; split.
    all: try (intros Hin; repeat (apply elem_of_cons in Hin as [->|Hin]);
              try (by apply elem_of_nil in Hin); simpl; by eexists).
    all: intros (pref & Hp & Ht);
      destruct (String.eqb name "watched") eqn:E1;
      [apply String.eqb_eq in E1 as ->; injection Hp as <-|
       destruct (String.eqb name "ratings") eqn:E2;
       [apply String.eqb_eq in E2 as ->; injection Hp as <-|
        destruct (String.eqb name "collected") eqn:E3;
        [apply String.eqb_eq in E3 as ->; injection Hp as <-|discriminate Hp]]];
      try congruence; set_solver.
Qed.

(** * Further properties of whole runs *)

Lemma copy_or_empty_rejects A w :
  truthy (heap w) A = true -> mapping_of (heap w) A = None ->
  copy_or_empty A w = (Raise AttributeError, w).
Proof.
  intros Ht Hm. unfold copy_or_empty, bind, get_world. rewrite Ht. unfold as_dict.
  destruct A as [| | | |l]; try done. simpl in Hm. by destruct (heap w !! l) as [[|]|].
Qed.

(** X19. [run] with an [artifacts] keyword that is truthy and of a type
    without a [copy] method ([True], a number other than zero, a
    non-empty string or a non-empty list) raises an [AttributeError] out
    of its reset: no handler and no child is triggered, nothing is
    logged and no status is recorded. *)
Theorem run_rejects_non_mapping cls p args kw w :
  truthy_without_copy (heap w) (kw_get "artifacts" kw) = true ->
  exists w',
    run cls p args kw w = (Raise AttributeError, w')
    /\ trace w' = trace w
    /\ statuses w' = statuses w
    /\ heap w' = heap w.
Proof.
  intros Hc. apply truthy_without_copy_spec in Hc as [Ht Hm]. rewrite run_unfold.
  destruct (reset cls p (kw_get "artifacts" kw) w) as [r w'] eqn:Hreset.
  assert (Hr : r = Raise AttributeError /\ heap w' = heap w).
  { rewrite reset_unfold in Hreset. unfold bind at 1, reset_node in Hreset.
    unfold bind at 1, utcnow in Hreset. unfold bind at 1, set_start_time, modify in Hreset.
    set (w0 := set_nodes _ _) in Hreset.
    rewrite (bind_raise _ _ _ _ _ (copy_or_empty_rejects _ w0 Ht Hm)) in Hreset.
    by injection Hreset as <- <-. }
  destruct Hr as [-> Hh]. exists w'.
  destruct (reset_silent _ _ _ _ _ _ Hreset) as [Htr Hst].
  by rewrite (bind_raise _ _ _ _ _ Hreset).
Qed.

Lemma run_rejects_non_mapping_witness :
  exists w',
    run Examples.show_ok [] [] [("artifacts", VInt 3)] Examples.w0
    = (Raise AttributeError, w')
    /\ trace w' = trace Examples.w0.
Proof.
  destruct (run_rejects_non_mapping Examples.show_ok [] [] [("artifacts", VInt 3)]
              Examples.w0 eq_refl) as (w' & Hrun & Ht & _).
  by exists w'.
Defined.

Lemma child_in_paths cls p name c :
  child cls name = Some c -> child_path p c ∈ paths cls p.
Proof.
  intros Hc. unfold child in Hc. apply find_some in Hc as [Hin _].
  destruct cls as [k t a th hs cs]. simpl in *. right.
  apply list_elem_of_bind. exists c. split; [apply paths_root|by apply list_elem_of_In].
Qed.

(** X16. On a tree that has just been constructed, [store_episodes]
    without explicit episodes finds none and does nothing: for a node
    with a child named [episode], under any key and any [artifact], the
    call returns normally and leaves the world as construction left
    it. *)
Theorem store_episodes_after_init cls p k show artifact w c :
  no_dangling w -> child cls "episode" = Some c ->
  exists w',
    init cls p w = (Ok tt, w')
    /\ store_episodes cls p k show VNone artifact w' = (Ok tt, w').
Proof.
  intros Hb Hc. pose proof (reset_inv_initial w ∅ Hb) as Hinv.
  destruct (init_spec (heap w) cls p w Hinv) as (w' & Hrun & _ & _ & _ & Hfresh & _).
  exists w'. split; [done|].
  destruct (Hfresh _ (child_in_paths cls p _ c Hc)) as (ns & Hn & _ & _ & Hd).
  rewrite (store_episodes_chosen cls p k show VNone artifact w' c ns ∅ Hc Hn Hd).
  by rewrite lookup_empty.
Qed.

Lemma store_episodes_after_init_witness :
  exists w',
    init Examples.show_ok [] Examples.w0 = (Ok tt, w')
    /\ store_episodes Examples.show_ok [] "watched" VNone VNone None w' = (Ok tt, w').
Proof.
  apply (store_episodes_after_init Examples.show_ok [] "watched" VNone None Examples.w0
           Examples.episode).
  - apply map_Forall_empty.
  - reflexivity.
Defined.
